(** * PBKDF2 / Fernet dictionary attack: candidate generator, verifier, driver

    A shallow embedding of the Python scripts of the repository
    ([Fase1_create_test_case.py], [Fase3_benchmark.py],
    [Fase4_final_calculator.py], [Fase5_cracker.py]) and the properties the
    specification states about them, followed by further properties read
    off the code.  [Fase1_create_test_case.py] draws its salt with
    [os.urandom(16)] and has no hardcoded Target: the salt and the token of
    a run are parameters of its model.  The clock is not modelled: the
    speed the benchmark measures is a parameter of its time estimates, and
    the speed shown on the driver's progress line is left out.  The conversion
    of an estimate to hours, minutes and seconds ([format_time]) is not
    modelled either.

    Python values are modelled as follows.
    - A [str] is a list of Unicode code points ([N]); [len] is [length],
      [s[:i]] is [firstn i s], [s[i:]] is [skipn i s] (for [0 <= i]),
      [+] on strings is [++].
    - A [bytes] object is a list of [Byte.byte].
    - An [int] is a [Z]; loop indices produced by [range] are [nat].
    - A [float] is a binary64 number of the standard library's [SpecFloat].
    - A generator is the list of the values it yields, in yield order.
    - Code that prints or raises runs in the monad [M], which threads the
      console output and returns either a value or the raised exception. *)

From Stdlib Require Import String Ascii DecimalString.
From Stdlib Require Import Strings.Byte.
From Stdlib Require Import List NArith ZArith Lia Bool.
From Stdlib Require Import FloatClass SpecFloat.
Import ListNotations.

Set Implicit Arguments.

(* ================================================================== *)
(** * Part I. Definitions                                              *)
(* ================================================================== *)

(** ** Strings and bytes *)

Definition char := N.
Definition str := list char.
Definition bytes := list byte.

(** A string literal of the source whose characters are all ASCII. *)
Definition lit (s : string) : str := map N_of_ascii (list_ascii_of_string s).
Arguments lit s%_string.

(** [str(i)] for a non-negative [int]. *)
Definition py_str (i : nat) : str := lit (NilEmpty.string_of_uint (Nat.to_uint i)).

(** The one-character string written with the escape [\n]. *)
Definition newline : str := [10%N].

(** [range(n)]. *)
Definition range (n : nat) : list nat := seq 0 n.

(** [s * n], as in ["=" * 50]. *)
Definition str_mul (s : str) (n : nat) : str := concat (repeat s n).

(** [str.upper()] applied to a one-character string, for the code points
    U+0000..U+00FF. This is the range of every character written in the
    scripts; it contains the one Latin-1 letter whose uppercase form is two
    characters (U+00DF, sharp s) and the two whose uppercase form lies
    outside Latin-1. Code points from U+0100 on are returned unchanged by
    this table, so statements that evaluate [str_upper] are made only for
    strings of code points below 256; the general theorems below are stated
    for an arbitrary uppercase function instead. *)
Definition str_upper (c : char) : str :=
  if ((97 <=? c) && (c <=? 122))%N then [c - 32]%N
  else if (c =? 181)%N then [924%N]
  else if (c =? 223)%N then [83%N; 83%N]
  else if ((224 <=? c) && (c <=? 254) && negb (c =? 247))%N then [c - 32]%N
  else if (c =? 255)%N then [376%N]
  else [c].

(** ** The candidate generator ([Fase5_cracker.py], [password_generator]) *)

(** A [for x in xs:] loop whose body yields the values [body x]. *)
Definition for_each {A B : Type} (xs : list A) (body : A -> list B) : list B :=
  flat_map body xs.

Section Generator.

(** [upper] is the builtin [str.upper] on one-character strings;
    [symbols] and [numbers] are the module-level lists the generator
    reads. *)
Variable upper : char -> str.
Variables symbols numbers : list str.

Definition password_generator (dictionary : list str) : list str :=
  for_each dictionary (fun base_word =>
  for_each (range (length base_word)) (fun i =>
    match nth_error base_word i with
    | None => []  (* [base_word[i]] out of range: excluded by [range(len(base_word))] *)
    | Some base_word_i =>
      let capitalized_word :=
        firstn i base_word ++ upper base_word_i ++ skipn (i + 1) base_word in
      for_each symbols (fun symbol =>
      for_each (range (length capitalized_word + 1)) (fun j =>
        let word_with_sym :=
          firstn j capitalized_word ++ symbol ++ skipn j capitalized_word in
        for_each numbers (fun number =>
        for_each (range (length word_with_sym + 1)) (fun k =>
          let final_password :=
            firstn k word_with_sym ++ number ++ skipn k word_with_sym in
          [final_password]))))
    end)).

End Generator.

(** Every character of [word] has a one-character uppercase form. *)
Definition single_upper (upper : char -> str) (word : str) : Prop :=
  Forall (fun c => length (upper c) = 1) word.

(** Every entry of [set] is a one-character string. *)
Definition single_characters (set : list str) : Prop :=
  Forall (fun s => length s = 1) set.

(** The characters a candidate can be made of. *)
Definition alphabet (upper : char -> str) (symbols numbers : list str)
           (dictionary : list str) : str :=
  concat dictionary ++ flat_map upper (concat dictionary)
  ++ concat symbols ++ concat numbers.

(** ** The complexity calculator ([Fase4_final_calculator.py]) *)

Section Calculator_loop.

Variables special_chars numbers : list str.

Definition combinations_for_this_word (word : str) : Z :=
  let word_len := Z.of_nat (length word) in
  let capitalization_options := word_len in
  let number_insertion_options := (Z.of_nat (length numbers) * (word_len + 1))%Z in
  let symbol_insertion_options := (Z.of_nat (length special_chars) * (word_len + 2))%Z in
  (capitalization_options * number_insertion_options * symbol_insertion_options)%Z.

Definition total_combinations (dictionary : list str) : Z :=
  fold_left (fun total word => (total + combinations_for_this_word word)%Z)
            dictionary 0%Z.

End Calculator_loop.

Module Calculator.
Definition dictionary : list str :=
  [lit "gatto"; lit "giulia"; lit "martina"; lit "password"; lit "pisa";
   lit "poesia"; lit "qwerty"; lit "sicurezza"; lit "storia"; lit "tavolo"].
Definition special_chars : list str :=
  [lit "!"; lit "$"; lit "%"; lit "&"; lit "?"; lit "^"; lit "*"; lit "+";
   lit "@"; lit "#"].
Definition numbers : list str := map py_str (range 10).
End Calculator.

(** ** Bytes literals and the UTF-8 codec *)

Definition byte_of_N (n : N) : byte :=
  match Byte.of_N (n mod 256) with Some b => b | None => x00 end.

Definition hex_digit (a : ascii) : option N :=
  let n := N_of_ascii a in
  if ((48 <=? n) && (n <=? 57))%N then Some (n - 48)%N
  else if ((97 <=? n) && (n <=? 102))%N then Some (n - 87)%N
  else if ((65 <=? n) && (n <=? 70))%N then Some (n - 55)%N
  else None.

Definition octal_digit (a : ascii) : option N :=
  let n := N_of_ascii a in
  if ((48 <=? n) && (n <=? 55))%N then Some (n - 48)%N else None.

(** The one-character escapes of a bytes literal. *)
Definition simple_escape (a : ascii) : option N :=
  let n := N_of_ascii a in
  if (n =? 92)%N then Some 92%N          (* \\ *)
  else if (n =? 39)%N then Some 39%N     (* \' *)
  else if (n =? 34)%N then Some 34%N     (* \dq *)
  else if (n =? 97)%N then Some 7%N      (* \a *)
  else if (n =? 98)%N then Some 8%N      (* \b *)
  else if (n =? 102)%N then Some 12%N    (* \f *)
  else if (n =? 110)%N then Some 10%N    (* \n *)
  else if (n =? 114)%N then Some 13%N    (* \r *)
  else if (n =? 116)%N then Some 9%N     (* \t *)
  else if (n =? 118)%N then Some 11%N    (* \v *)
  else None.

(** The value of the bytes literal [b"body"]: escapes are decoded the way
    the Python lexer does it. An escape the language does not define
    (a backslash followed by any other character) is left in place, both
    characters included; [\x] must be followed by two hexadecimal digits,
    otherwise the literal is a syntax error ([None]). *)
Fixpoint bytes_literal (body : string) : option bytes :=
  match body with
  | EmptyString => Some []
  | String c rest =>
    if (N_of_ascii c =? 92)%N then
      match rest with
      | EmptyString => None
      | String e rest1 =>
        if (N_of_ascii e =? 120)%N then                      (* \xhh *)
          match rest1 with
          | String h (String l rest3) =>
            match hex_digit h, hex_digit l with
            | Some a, Some b =>
                option_map (cons (byte_of_N (16 * a + b))) (bytes_literal rest3)
            | _, _ => None
            end
          | _ => None
          end
        else if (N_of_ascii e =? 10)%N then bytes_literal rest1   (* line joining *)
        else
          match simple_escape e with
          | Some v => option_map (cons (byte_of_N v)) (bytes_literal rest1)
          | None =>
            match octal_digit e with
            | Some o1 =>                                     (* \o, \oo, \ooo *)
              match rest1 with
              | String d2 rest2 =>
                match octal_digit d2 with
                | Some o2 =>
                  match rest2 with
                  | String d3 rest3 =>
                    match octal_digit d3 with
                    | Some o3 =>
                        option_map (cons (byte_of_N (64 * o1 + 8 * o2 + o3)))
                                   (bytes_literal rest3)
                    | None =>
                        option_map (cons (byte_of_N (8 * o1 + o2))) (bytes_literal rest2)
                    end
                  | EmptyString => Some [byte_of_N (8 * o1 + o2)]
                  end
                | None => option_map (cons (byte_of_N o1)) (bytes_literal rest1)
                end
              | EmptyString => Some [byte_of_N o1]
              end
            | None =>                                        (* not an escape *)
                option_map (cons (byte_of_ascii c)) (bytes_literal rest)
            end
          end
      end
    else option_map (cons (byte_of_ascii c)) (bytes_literal rest)
  end.

Definition is_cont (b : byte) : bool :=
  let n := Byte.to_N b in ((128 <=? n) && (n <=? 191))%N.

Definition in_range (lo hi : N) (b : byte) : bool :=
  let n := Byte.to_N b in ((lo <=? n) && (n <=? hi))%N.

Definition low6 (b : byte) : N := (Byte.to_N b mod 64)%N.

(** [bs.decode('utf-8')] (strict): [None] stands for [UnicodeDecodeError].
    Overlong forms, surrogates and values above U+10FFFF are rejected. *)
Fixpoint utf8_decode (bs : bytes) : option str :=
  match bs with
  | [] => Some []
  | b0 :: r0 =>
    let n0 := Byte.to_N b0 in
    if (n0 <? 128)%N then option_map (cons n0) (utf8_decode r0)
    else if in_range 194 223 b0 then
      match r0 with
      | b1 :: r1 =>
        if is_cont b1
        then option_map (cons ((n0 - 192) * 64 + low6 b1)%N) (utf8_decode r1)
        else None
      | _ => None
      end
    else if in_range 224 239 b0 then
      match r0 with
      | b1 :: b2 :: r2 =>
        if (if (n0 =? 224)%N then in_range 160 191 b1
            else if (n0 =? 237)%N then in_range 128 159 b1
            else is_cont b1) && is_cont b2
        then option_map (cons ((n0 - 224) * 4096 + low6 b1 * 64 + low6 b2)%N)
                        (utf8_decode r2)
        else None
      | _ => None
      end
    else if in_range 240 244 b0 then
      match r0 with
      | b1 :: b2 :: b3 :: r3 =>
        if (if (n0 =? 240)%N then in_range 144 191 b1
            else if (n0 =? 244)%N then in_range 128 143 b1
            else is_cont b1) && is_cont b2 && is_cont b3
        then option_map
               (cons ((n0 - 240) * 262144 + low6 b1 * 4096 + low6 b2 * 64 + low6 b3)%N)
               (utf8_decode r3)
        else None
      | _ => None
      end
    else None
  end.

Definition utf8_encode_char (c : char) : option bytes :=
  if (c <? 128)%N then Some [byte_of_N c]
  else if (c <? 2048)%N then
    Some [byte_of_N (192 + c / 64); byte_of_N (128 + c mod 64)]
  else if ((55296 <=? c) && (c <=? 57343))%N then None
  else if (c <? 65536)%N then
    Some [byte_of_N (224 + c / 4096); byte_of_N (128 + (c / 64) mod 64);
          byte_of_N (128 + c mod 64)]
  else if (c <? 1114112)%N then
    Some [byte_of_N (240 + c / 262144); byte_of_N (128 + (c / 4096) mod 64);
          byte_of_N (128 + (c / 64) mod 64); byte_of_N (128 + c mod 64)]
  else None.

(** [s.encode('utf-8')]: [None] stands for [UnicodeEncodeError] (a lone
    surrogate in [s]). *)
Fixpoint utf8_encode (s : str) : option bytes :=
  match s with
  | [] => Some []
  | c :: r =>
    match utf8_encode_char c, utf8_encode r with
    | Some bs, Some rs => Some (bs ++ rs)
    | _, _ => None
    end
  end.

(** ** Console output and exceptions *)

Inductive exn : Type :=
| InvalidToken
| UnicodeDecodeError
| UnicodeEncodeError
| TypeError
| ValueError
| OtherError (name : string).

Definition is_InvalidToken (e : exn) : bool :=
  match e with InvalidToken => true | _ => false end.

Inductive outcome (A : Type) : Type :=
| Return (a : A)
| Raise (e : exn).
Arguments Return {A} a.
Arguments Raise {A} e.

(** What the scripts write to the console.  [Print s] is [print(s)]. The
    progress line of the driver also shows the elapsed-time speed, which is
    not part of the model: the event keeps its two other fields. *)
Inductive event : Type :=
| Print (line : str)
| PrintProgress (attempts : Z) (last_test : str).

Definition stdout := list event.

Definition M (A : Type) : Type := stdout -> stdout * outcome A.

Definition ret {A} (a : A) : M A := fun out => (out, Return a).

Definition raise {A} (e : exn) : M A := fun out => (out, Raise e).

Definition bind {A B} (m : M A) (k : A -> M B) : M B :=
  fun out =>
    match m out with
    | (out', Return a) => k a out'
    | (out', Raise e) => (out', Raise e)
    end.

Definition lift {A} (r : outcome A) : M A := fun out => (out, r).

Definition print (line : str) : M unit := fun out => (out ++ [Print line], Return tt).

Definition emit (e : event) : M unit := fun out => (out ++ [e], Return tt).

(** [try: body except E: handler], for the exception classes [caught]. *)
Definition try_except {A} (body : M A) (caught : exn -> bool) (handler : M A) : M A :=
  fun out =>
    match body out with
    | (out', Raise e) => if caught e then handler out' else (out', Raise e)
    | r => r
    end.

(** [bs.decode('utf-8')] and [s.encode('utf-8')] as statements. *)
Definition decode (bs : bytes) : M str :=
  match utf8_decode bs with
  | Some s => ret s
  | None => raise UnicodeDecodeError
  end.

Definition encode (s : str) : M bytes :=
  match utf8_encode s with
  | Some bs => ret bs
  | None => raise UnicodeEncodeError
  end.

Declare Scope py_scope.
Delimit Scope py_scope with py.
Notation "x <- m ;; k" := (bind m (fun x => k))
  (at level 61, m at next level, right associativity) : py_scope.
Notation "m ;; k" := (bind m (fun _ => k))
  (at level 61, right associativity) : py_scope.
Open Scope py_scope.

(** ** The verifier ([decrypt], [check_password_silent]) *)

Section Verifier.

(** The [cryptography] package and [base64] are outside the repository.
    They are parameters here: each call either returns a value or raises.
    [PBKDF2HMAC_derive length salt iterations key_material] stands for
    [PBKDF2HMAC(algorithm=hashes.SHA256(), length, salt, iterations)
     .derive(key_material)]; [Fernet key] for the constructor and
    [Fernet_decrypt f token] for [f.decrypt(token)]. *)
Variable fernet : Type.
Variable PBKDF2HMAC_derive : Z -> bytes -> Z -> bytes -> outcome bytes.
Variable urlsafe_b64encode : bytes -> bytes.
Variable Fernet : bytes -> outcome fernet.
Variable Fernet_decrypt : fernet -> bytes -> outcome bytes.

(** The module-level Target. *)
Variables salt ciphertext : bytes.

(** [Fase5_cracker.py], [decrypt]. *)
Definition decrypt (passwd_bytes : bytes) : M bool :=
  try_except
    (key_material <- lift (PBKDF2HMAC_derive 32 salt 100000 passwd_bytes) ;;
     let key := urlsafe_b64encode key_material in
     f <- lift (Fernet key) ;;
     plaintext <- lift (Fernet_decrypt f ciphertext) ;;
     print (newline ++ str_mul (lit "=") 50) ;;
     print (lit "[!!!] SUCCESS! PASSWORD FOUND [!!!]") ;;
     password <- decode passwd_bytes ;;
     print (lit " -> Password: " ++ password) ;;
     text <- decode plaintext ;;
     print (lit " -> Plaintext: " ++ text) ;;
     print (str_mul (lit "=") 50) ;;
     ret true)
    is_InvalidToken
    (ret false).

(** [Fase3_benchmark.py], [check_password_silent]: the function has no
    [return] statement, its value is [None] ([tt]). *)
Definition check_password_silent (passwd_bytes : bytes) : M unit :=
  try_except
    (key_material <- lift (PBKDF2HMAC_derive 32 salt 100000 passwd_bytes) ;;
     let key := urlsafe_b64encode key_material in
     f <- lift (Fernet key) ;;
     _ <- lift (Fernet_decrypt f ciphertext) ;;
     ret tt)
    is_InvalidToken
    (ret tt).

(** The three library calls of the [try] body, without the printing:
    key derivation, key encoding, authenticated decryption. *)
Definition authenticated_decryption (passwd_bytes : bytes) : outcome bytes :=
  match PBKDF2HMAC_derive 32 salt 100000 passwd_bytes with
  | Raise e => Raise e
  | Return key_material =>
    match Fernet (urlsafe_b64encode key_material) with
    | Raise e => Raise e
    | Return f => Fernet_decrypt f ciphertext
    end
  end.

End Verifier.

(** ** The attack driver (main loop of [Fase5_cracker.py]) *)

(** [print(f"[INFO] Progress: {attempts:,} attempts | ... | Last test:
    '{password_guess}'")].  The line holds the candidate itself.  The console
    is a text stream that encodes with UTF-8 and the error handler [strict]
    (the default of [sys.stdout]): [print] encodes the whole line before it
    writes, so for a candidate that has no UTF-8 encoding (a lone surrogate)
    it raises [UnicodeEncodeError] and writes nothing.  Every other line of
    the scripts is made of ASCII literals, numbers, [repr]s and text decoded
    from UTF-8, which always encode; those are written with [print]. *)
Definition print_progress (attempts : Z) (last_test : str) : M unit :=
  match utf8_encode last_test with
  | Some _ => emit (PrintProgress attempts last_test)
  | None => raise UnicodeEncodeError
  end.

Section Driver.

Variable decrypt : bytes -> M bool.

(** [for password_guess in password_candidates: ...] with the counter
    [attempts]; the result is [(password_found, attempts)] when the loop
    is left, by [break] or by exhaustion of the generator. *)
Fixpoint attack_loop (password_candidates : list str) (attempts : Z)
  : M (bool * Z) :=
  match password_candidates with
  | [] => ret (false, attempts)
  | password_guess :: remaining =>
    let attempts := (attempts + 1)%Z in
    (if (attempts mod 5000 =? 0)%Z
     then print_progress attempts password_guess
     else ret tt) ;;
    passwd_bytes <- encode password_guess ;;
    found <- decrypt passwd_bytes ;;
    if found then ret (true, attempts)
    else attack_loop remaining attempts
  end.

End Driver.

(** ** The constants of the scripts *)

(** The value of a literal that is known to lex. *)
Definition literal_value (v : option bytes) : bytes :=
  match v with Some b => b | None => [] end.

Module Cracker.

Definition salt_source : string :=
  "\xd2\xffs~\xb4\xf2\xd3\xda\xe3\x16('\xe6\xad\xef\xaf".
Definition salt : bytes := literal_value (bytes_literal salt_source).

Definition ciphertext_source : string :=
  "gAAAAABnE2P-qqJT-HudMbLcykzIx83XqZNEt6UqfyBBzhYKvlF9WSx8FJUvUmatzuY1-io9RHWaj7RVBuAKTWRAVT9GpGC--TZUXk387qeTC2jIJOfUrwSX3eGEb1EVFZBOqALd8EKS1CFWUoF4NpzKsc3eLeCnXihb-w6Boqi835uNzN6mZz4iP-6sSkhNxHP-TbrG-BNgjMIyeRDjSLAZhEAJoUGlz_QuOyyOYHMab9LUrXkHibU=".
Definition ciphertext : bytes := literal_value (bytes_literal ciphertext_source).

Definition full_dictionary : list str :=
  [lit "gatto"; lit "giulia"; lit "martina"; lit "pisa"; lit "poesia";
   lit "qwerty"; lit "sicurezza"; lit "storia"; lit "tavolo"].
Definition symbols : list str :=
  [lit "!"; lit "$"; lit "%"; lit "&"; lit "?"; lit "^"; lit "*"; lit "+";
   lit "@"; lit "#"].
Definition numbers : list str := map py_str (range 10).

(** [ATTACK_MODE] is a module-level constant, ["QUICK_TEST"] as
    committed; the script selects the dictionary from it. *)
Definition dictionary_to_use (ATTACK_MODE : string) : list str :=
  if String.eqb ATTACK_MODE "QUICK_TEST" then [lit "sicurezza"]
  else full_dictionary.

(** [password_candidates = password_generator(dictionary_to_use)]. *)
Definition password_candidates (ATTACK_MODE : string) : list str :=
  password_generator str_upper symbols numbers (dictionary_to_use ATTACK_MODE).

End Cracker.

Module Benchmark.

Definition salt_source : string :=
  "\xd2\xffs~\xb4\xf2\xd3\da\xe3\x16('\xe6\xad\xef\xaf".
Definition salt : bytes := literal_value (bytes_literal salt_source).

Definition ciphertext_source : string :=
  "gAAAAABmE2P-qqJT-HudMbLcykzIx83XqZNEt6UqfyBBzhYKvlF9WSx8FJUvUmatzuYl-iO9RHwAj7RVBuAkTwRAVT9GpCC--TZUXk387qeTC2jIJOfUrwSX3eGEb1EVFZBOqALd8EKS1CFWUoF4NpzKsc3eLeCnXihb-w6Boqi835uNzN6mZz4iP-6sSkhNxHF-TbrG-BNgjMIyeRDjSLAZHEAJoUGlz_QuOyyOYHMab9LUrXkHibU=".
Definition ciphertext : bytes := literal_value (bytes_literal ciphertext_source).


End Benchmark.

(** ** The enumeration order as the specification words it *)

Section Spec_order.

Variable upper : char -> str.

(** "a variant with only that position uppercased (all others unchanged
    from original casing)". *)
Fixpoint uppercase_only_at (i : nat) (word : str) : str :=
  match word with
  | [] => []
  | c :: rest =>
    match i with
    | O => upper c ++ rest
    | S i' => c :: uppercase_only_at i' rest
    end
  end.

(** "insert the symbol at position j" / "insert the digit at position k". *)
Fixpoint insert_at (j : nat) (x : str) (s : str) : str :=
  match j, s with
  | O, _ => x ++ s
  | S j', c :: rest => c :: insert_at j' x rest
  | S _, [] => x
  end.

(** "each letter position i in the word (0-indexed, left to right)". *)
Definition letter_positions (word : str) : list nat := seq 0 (length word).

(** "each insertion position from 0 to len(s) inclusive (left to right)". *)
Definition insertion_positions (s : str) : list nat := seq 0 (S (length s)).

(** The digits "0".."9" in that order. *)
Definition digits_0_to_9 : list str :=
  [lit "0"; lit "1"; lit "2"; lit "3"; lit "4"; lit "5"; lit "6"; lit "7";
   lit "8"; lit "9"].

(** Steps 1 to 6 of the enumeration order, each "for each" being the
    concatenation, in order, of what the inner steps produce. *)
Definition spec_enumeration (symbol_set digit_set : list str) (wordlist : list str)
  : list str :=
  concat (map (fun word =>
  concat (map (fun i =>
    let capitalized_word := uppercase_only_at i word in
    concat (map (fun symbol =>
    concat (map (fun j =>
      let word_with_symbol := insert_at j symbol capitalized_word in
      concat (map (fun digit =>
      map (fun k => insert_at k digit word_with_symbol)
          (insertion_positions word_with_symbol))
      digit_set))
    (insertion_positions capitalized_word)))
    symbol_set))
  (letter_positions word)))
  wordlist).

End Spec_order.

(** ** A stand-in for the cryptographic library

    It has the interface the verifier is parameterised by and is used to
    run the verifier and the driver on concrete inputs: the derived key is
    the salt followed by the password, a token is the key followed by the
    plaintext, and decryption of a token that does not start with the key
    raises [InvalidToken]. *)

Module StubCrypto.

Definition fernet : Type := bytes.

Definition PBKDF2HMAC_derive (length : Z) (salt : bytes) (iterations : Z)
           (key_material : bytes) : outcome bytes :=
  Return (salt ++ key_material).

Definition urlsafe_b64encode (s : bytes) : bytes := s.

Definition Fernet (key : bytes) : outcome fernet := Return key.

Fixpoint strip_key (key token : bytes) : option bytes :=
  match key, token with
  | [], _ => Some token
  | k :: key', t :: token' =>
    if Byte.eqb k t then strip_key key' token' else None
  | _ :: _, [] => None
  end.

Definition Fernet_decrypt (f : fernet) (token : bytes) : outcome bytes :=
  match strip_key f token with
  | Some data => Return data
  | None => Raise InvalidToken
  end.

Definition Fernet_encrypt (f : fernet) (data : bytes) : bytes := f ++ data.

Definition decrypt (salt ciphertext : bytes) : bytes -> M bool :=
  decrypt PBKDF2HMAC_derive urlsafe_b64encode Fernet Fernet_decrypt salt ciphertext.

(** The bytes of an ASCII literal. *)
Definition ascii_bytes (s : string) : bytes :=
  map byte_of_ascii (list_ascii_of_string s).

(** Sample Targets (with an empty salt unless said otherwise): a text and
    a non-UTF-8 plaintext encrypted under the password "Ab!1", a text
    encrypted under "!A1", and the empty token, which no key opens (used
    with the one-byte salt [closed_salt]). *)
Definition right_password : bytes := ascii_bytes "Ab!1".
Definition wrong_password : bytes := ascii_bytes "Ab!2".
Definition text_target : bytes := Fernet_encrypt right_password (ascii_bytes "hi").
Definition binary_target : bytes := Fernet_encrypt right_password [xff].
Definition short_target : bytes := Fernet_encrypt (ascii_bytes "!A1") (ascii_bytes "hi").
Definition closed_salt : bytes := [x00].
Definition closed_target : bytes := [].

End StubCrypto.

(** ** The closed-form count and the inverse check of the specification *)

(** "n * 10 * (n+1) * 10 * (n+2)", with the two set sizes as parameters. *)
Definition closed_form_count (n symbol_count digit_count : Z) : Z :=
  (n * symbol_count * (n + 1) * digit_count * (n + 2))%Z.

(** "Total for the attack = sum over all words." *)
Fixpoint closed_form_total (symbol_count digit_count : Z) (wordlist : list str) : Z :=
  match wordlist with
  | [] => 0%Z
  | word :: rest =>
    (closed_form_count (Z.of_nat (length word)) symbol_count digit_count
     + closed_form_total symbol_count digit_count rest)%Z
  end.

Section Inverse_check.

Variable upper : char -> str.
Variables symbol_set digit_set : list str.

Definition occurrences (c : char) (s : str) : nat :=
  length (filter (fun x => (x =? c)%N) s).

(** [c] is one of the characters of a set of one-character strings. *)
Definition member (set : list str) (c : char) : bool :=
  existsb (fun s => match s with [x] => (x =? c)%N | _ => false end) set.

Definition count_members (set : list str) (s : str) : nat :=
  length (filter (member set) s).

(** "the capitalized letter exists exactly once more than in the
    lowercase original; exactly one symbol-set character and one
    digit-set character beyond the base word are present". *)
Definition inverse_check (base_word candidate : str) : bool :=
  existsb (fun c =>
             match upper c with
             | [u] => occurrences u candidate =? occurrences u base_word + 1
             | _ => false
             end) base_word
  && (count_members symbol_set candidate =? count_members symbol_set base_word + 1)
  && (count_members digit_set candidate =? count_members digit_set base_word + 1).

(** A lowercase letter of the configuration: its uppercase form is one
    character, different from it, and neither form is a symbol or a
    digit. *)
Definition lowercase_letter (c : char) : bool :=
  match upper c with
  | [u] => negb (u =? c)%N
           && negb (member symbol_set u) && negb (member digit_set u)
           && negb (member symbol_set c) && negb (member digit_set c)
  | _ => false
  end.

(** The two sets consist of one-character strings and share none. *)
Definition disjoint_character_sets : bool :=
  forallb (fun s => match s with
                    | [x] => negb (member digit_set x)
                    | _ => false
                    end) symbol_set
  && forallb (fun d => match d with
                       | [x] => negb (member symbol_set x)
                       | _ => false
                       end) digit_set.

End Inverse_check.

(** ** What [decrypt] returns and what it writes *)

Section Verdict.

Variable fernet : Type.
Variable PBKDF2HMAC_derive : Z -> bytes -> Z -> bytes -> outcome bytes.
Variable urlsafe_b64encode : bytes -> bytes.
Variable Fernet : bytes -> outcome fernet.
Variable Fernet_decrypt : fernet -> bytes -> outcome bytes.
Variables salt ciphertext : bytes.

Local Abbreviation decryption :=
  (authenticated_decryption PBKDF2HMAC_derive urlsafe_b64encode Fernet
   Fernet_decrypt salt ciphertext).

Definition banner : list event :=
  [Print (newline ++ str_mul (lit "=") 50);
   Print (lit "[!!!] SUCCESS! PASSWORD FOUND [!!!]")].

(** The value or exception [decrypt] ends with. *)
Definition verdict (passwd_bytes : bytes) : outcome bool :=
  match decryption passwd_bytes with
  | Raise e => if is_InvalidToken e then Return false else Raise e
  | Return plaintext =>
    match utf8_decode passwd_bytes, utf8_decode plaintext with
    | Some _, Some _ => Return true
    | _, _ => Raise UnicodeDecodeError
    end
  end.

(** The lines [decrypt] prints. *)
Definition console_output (passwd_bytes : bytes) : list event :=
  match decryption passwd_bytes with
  | Raise _ => []
  | Return plaintext =>
    match utf8_decode passwd_bytes with
    | None => banner
    | Some password =>
      match utf8_decode plaintext with
      | None => banner ++ [Print (lit " -> Password: " ++ password)]
      | Some text =>
        banner ++ [Print (lit " -> Password: " ++ password);
                   Print (lit " -> Plaintext: " ++ text);
                   Print (str_mul (lit "=") 50)]
      end
    end
  end.

(** The driver's view of one candidate string. *)
Definition rejected (password_guess : str) : bool :=
  match utf8_encode password_guess with
  | Some passwd_bytes =>
    match verdict passwd_bytes with Return false => true | _ => false end
  | None => false
  end.

Definition accepted (password_guess : str) : bool :=
  match utf8_encode password_guess with
  | Some passwd_bytes =>
    match verdict passwd_bytes with Return true => true | _ => false end
  | None => false
  end.

End Verdict.

(** The progress lines the loop prints while it tests [password_candidates],
    [attempts] being the counter before the first of them. *)
Fixpoint progress_events (password_candidates : list str) (attempts : Z)
  : list event :=
  match password_candidates with
  | [] => []
  | password_guess :: remaining =>
    let attempts := (attempts + 1)%Z in
    (if (attempts mod 5000 =? 0)%Z
     then [PrintProgress attempts password_guess] else [])
    ++ progress_events remaining attempts
  end.

(** The terminal states of the driver, as the specification names them. *)
Inductive driver_state : Type := Running | Succeeded | Exhausted.

Definition final_state (password_found : bool) : driver_state :=
  if password_found then Succeeded else Exhausted.

(** ** The number of candidates for arbitrary words and sets *)

Section Exact_count.

Variable upper : char -> str.
Variables symbols numbers : list str.

(** The strings yielded for one word: for each letter [c], the capitalized
    word has [len(word) - 1 + len(c.upper())] characters; a symbol [s] has
    one more insertion position than that, and a digit one more than the
    length of the word with its symbol. *)
Definition exact_count_word (word : str) : nat :=
  list_sum (map (fun c =>
    let capitalized_length := length word - 1 + length (upper c) in
    list_sum (map (fun symbol =>
      (capitalized_length + 1)
      * (length numbers * (capitalized_length + length symbol + 1)))
      symbols))
    word).

Definition exact_count (dictionary : list str) : nat :=
  list_sum (map exact_count_word dictionary).

End Exact_count.

(** Uppercase ASCII letters. *)
Definition is_ascii_upper (c : char) : bool := ((65 <=? c) && (c <=? 90))%N.

(** A word written with the letters a to z only. *)
Definition ascii_lowercase_word (word : str) : bool :=
  forallb (fun c => ((97 <=? c) && (c <=? 122))%N) word.

(** ** The printed form of a bytes object ([repr], used by [{salt!r}]) *)

Definition squote : ascii := ascii_of_N 39.
Definition dquote : ascii := ascii_of_N 34.
Definition backslash : ascii := ascii_of_N 92.

Definition hex_char (n : N) : ascii :=
  ascii_of_N (if (n <? 10)%N then 48 + n else 87 + n).

(** The quote [repr] writes the literal with: the double quote when the
    bytes contain a single quote and no double quote, the single quote
    otherwise. *)
Definition repr_quote (bs : bytes) : ascii :=
  if existsb (Byte.eqb x27) bs && negb (existsb (Byte.eqb x22) bs)
  then dquote else squote.

Definition repr_byte (quote : ascii) (b : byte) : string :=
  let n := Byte.to_N b in
  if ((n =? N_of_ascii quote) || (n =? 92))%N
  then String backslash (String (ascii_of_byte b) EmptyString)
  else if (n =? 9)%N then String backslash (String "t" EmptyString)
  else if (n =? 10)%N then String backslash (String "n" EmptyString)
  else if (n =? 13)%N then String backslash (String "r" EmptyString)
  else if ((n <? 32) || (127 <=? n))%N
  then String backslash
         (String "x" (String (hex_char (n / 16))
                             (String (hex_char (n mod 16)) EmptyString)))
  else String (ascii_of_byte b) EmptyString.

Fixpoint repr_body (quote : ascii) (bs : bytes) : string :=
  match bs with
  | [] => EmptyString
  | b :: rest => (repr_byte quote b ++ repr_body quote rest)%string
  end.

(** [repr(bs)]: the prefix [b], the quote, the body, the quote. *)
Definition bytes_repr (bs : bytes) : string :=
  String "b" (String (repr_quote bs)
                     (repr_body (repr_quote bs) bs
                      ++ String (repr_quote bs) EmptyString))%string.

(** The lexer's side.  A bytes literal is the prefix [b], a quote, a body
    and the closing quote.  When the opening quote is followed by two more
    of the same the literal is triple-quoted.  In both forms a backslash
    takes the next character with it.

    The body of a one-quote literal runs to the first quote that is not
    preceded by a backslash and cannot hold an end of line.  The result is
    the body and what follows the closing quote. *)
Fixpoint literal_body (quote : ascii) (text : string) : option (string * string) :=
  match text with
  | EmptyString => None
  | String c rest =>
    if Ascii.eqb c quote then Some (EmptyString, rest)
    else if Ascii.eqb c backslash then
      match rest with
      | EmptyString => None
      | String e rest' =>
        match literal_body quote rest' with
        | Some (body, after) => Some (String c (String e body), after)
        | None => None
        end
      end
    else if (N_of_ascii c =? 10)%N then None
    else
      match literal_body quote rest with
      | Some (body, after) => Some (String c body, after)
      | None => None
      end
  end.

(** The body of a triple-quoted literal runs to the first three quotes in
    a row, none of them taken by a backslash; it may hold single quotes and
    ends of line. *)
Fixpoint triple_quoted_body (quote : ascii) (text : string)
  : option (string * string) :=
  match text with
  | EmptyString => None
  | String c rest =>
    let continue :=
      match triple_quoted_body quote rest with
      | Some (body, after) => Some (String c body, after)
      | None => None
      end in
    if Ascii.eqb c backslash then
      match rest with
      | EmptyString => None
      | String e rest' =>
        match triple_quoted_body quote rest' with
        | Some (body, after) => Some (String c (String e body), after)
        | None => None
        end
      end
    else if Ascii.eqb c quote then
      match rest with
      | String c2 (String c3 after) =>
        if Ascii.eqb c2 quote && Ascii.eqb c3 quote
        then Some (EmptyString, after) else continue
      | _ => continue
      end
    else continue
  end.

(** The characters a bytes literal may be written with: ASCII only.  The
    source text is taken with its line ends already translated to [\n], as
    Python reads a file, and without NUL characters. *)
Definition literal_character (c : ascii) : bool :=
  let n := N_of_ascii c in ((0 <? n) && (n <? 128) && negb (n =? 13))%N.

(** [text] begins with the character [c]. *)
Definition begins_with (c : ascii) (text : string) : bool :=
  match text with
  | String c0 _ => Ascii.eqb c0 c
  | EmptyString => false
  end.

(** A bytes literal with the prefix [b] at the start of [text]: its value
    and the text after it.  [None] when [text] does not begin with such a
    literal or the lexer refuses it. *)
Definition read_bytes_literal (text : string) : option (bytes * string) :=
  match text with
  | String p (String quote rest) =>
    if Ascii.eqb p "b" && (Ascii.eqb quote squote || Ascii.eqb quote dquote)
    then
      let scanned :=
        match rest with
        | String c2 (String c3 rest') =>
          if Ascii.eqb c2 quote && Ascii.eqb c3 quote
          then triple_quoted_body quote rest'
          else literal_body quote rest
        | _ => literal_body quote rest
        end in
      match scanned with
      | Some (body, after) =>
        if forallb literal_character (list_ascii_of_string body)
        then match bytes_literal body with
             | Some value => Some (value, after)
             | None => None
             end
        else None
      | None => None
      end
    else None
  | _ => None
  end.

(** ** The test-case script ([Fase1_create_test_case.py]) *)

(** [try: body except E as e: handler(e)]. *)
Definition try_except_as {A} (body : M A) (caught : exn -> bool)
           (handler : exn -> M A) : M A :=
  fun out =>
    match body out with
    | (out', Raise e) => if caught e then handler e out' else (out', Raise e)
    | r => r
    end.

Module TestCase.

Definition password_da_usare : bytes :=
  literal_value (bytes_literal "giovanni0@").
Definition testo_in_chiaro : bytes :=
  literal_value
    (bytes_literal "Se leggi questo messaggio, la logica di crittografia funziona!").

End TestCase.

Section Create_test_case.

Variable fernet : Type.
Variable PBKDF2HMAC_derive : Z -> bytes -> Z -> bytes -> outcome bytes.
Variable urlsafe_b64encode : bytes -> bytes.
Variable Fernet : bytes -> outcome fernet.
Variable Fernet_decrypt : fernet -> bytes -> outcome bytes.

(** [f.encrypt(data)] draws an initialisation vector and reads the clock:
    [Fernet_encrypt f data] is the token this run obtains. *)
Variable Fernet_encrypt : fernet -> bytes -> outcome bytes.

(** The value [os.urandom(16)] returns in this run. *)
Variable random_salt : bytes.

(** [str(e)] for a caught exception. *)
Variable exception_message : exn -> str.

(** The whole script; its value is the pair of module-level names [salt]
    and [ciphertext] it ends with.  [except Exception] catches every
    exception of the model. *)
Definition create_test_case : M (bytes * bytes) :=
  let salt := random_salt in
  key_material <- lift (PBKDF2HMAC_derive 32 salt 100000 TestCase.password_da_usare) ;;
  let key := urlsafe_b64encode key_material in
  f <- lift (Fernet key) ;;
  ciphertext <- lift (Fernet_encrypt f TestCase.testo_in_chiaro) ;;
  print (str_mul (lit "=") 60) ;;
  print (lit "Controlled Test Case Generated Successfully") ;;
  print (str_mul (lit "=") 60) ;;
  password <- decode TestCase.password_da_usare ;;
  print (lit "Reference Password: " ++ password) ;;
  text <- decode TestCase.testo_in_chiaro ;;
  print (lit "Original Plaintext: " ++ text) ;;
  print (str_mul (lit "-") 60) ;;
  print (lit "Data to copy into the script 'Fase1_bruteforce_test.py':") ;;
  print (lit "salt = " ++ lit (bytes_repr salt)) ;;
  print (lit "ciphertext = " ++ lit (bytes_repr ciphertext)) ;;
  print (str_mul (lit "-") 60) ;;
  try_except_as
    (decrypted_text <- lift (Fernet_decrypt f ciphertext) ;;
     print (lit "Internal decryption verification: OK!") ;;
     verified <- decode decrypted_text ;;
     print (lit "Decrypted text for verification: " ++ verified))
    (fun _ => true)
    (fun e => print (lit "[ERROR] Decryption verification failed: "
                     ++ exception_message e)) ;;
  print (str_mul (lit "=") 60) ;;
  ret (salt, ciphertext).

End Create_test_case.

(** ** The benchmark loop ([Fase3_benchmark.py]) *)

Definition number_of_passwords_to_test : nat := 1000.

(** [f"benchmark_password_{i}"]. *)
Definition dummy_password (i : nat) : str := lit "benchmark_password_" ++ py_str i.

(** [f"  Progress: {i + 1}/{number_of_passwords_to_test} passwords tested..."]. *)
Definition benchmark_progress_line (i : nat) : str :=
  lit "  Progress: " ++ py_str (i + 1) ++ lit "/"
  ++ py_str number_of_passwords_to_test ++ lit " passwords tested...".

Section Benchmark_loop.

Variable check_password_silent : bytes -> M unit.

(** [for i in indices: ...], with [indices = range(number_of_passwords_to_test)]
    in the script. *)
Fixpoint benchmark_loop (indices : list nat) : M unit :=
  match indices with
  | [] => ret tt
  | i :: remaining =>
    dummy_password_bytes <- encode (dummy_password i) ;;
    check_password_silent dummy_password_bytes ;;
    (if (i + 1) mod 100 =? 0
     then print (benchmark_progress_line i)
     else ret tt) ;;
    benchmark_loop remaining
  end.

(** The script from its first [print] to the end of the loop; the time
    stamps taken before and after the loop are not part of the model. *)
Definition benchmark : M unit :=
  print (lit "Starting benchmark: " ++ py_str number_of_passwords_to_test
         ++ lit " passwords will be tested...") ;;
  print (lit "This process will measure your hardware speed against this specific cryptographic target.") ;;
  benchmark_loop (range number_of_passwords_to_test).

End Benchmark_loop.

(** ** What the test-case script and the benchmark loop print *)

Section Test_case_report.

Variable fernet : Type.
Variable Fernet_decrypt : fernet -> bytes -> outcome bytes.
Variable random_salt : bytes.
Variable exception_message : exn -> str.

(** The lines printed before the self-verification, for the token
    obtained. *)
Definition test_case_report (ciphertext : bytes) : list event :=
  [Print (str_mul (lit "=") 60);
   Print (lit "Controlled Test Case Generated Successfully");
   Print (str_mul (lit "=") 60);
   Print (lit "Reference Password: " ++ lit "giovanni0@");
   Print (lit "Original Plaintext: "
          ++ lit "Se leggi questo messaggio, la logica di crittografia funziona!");
   Print (str_mul (lit "-") 60);
   Print (lit "Data to copy into the script 'Fase1_bruteforce_test.py':");
   Print (lit "salt = " ++ lit (bytes_repr random_salt));
   Print (lit "ciphertext = " ++ lit (bytes_repr ciphertext));
   Print (str_mul (lit "-") 60)].

(** The lines of the self-verification block. *)
Definition verification_report (f : fernet) (ciphertext : bytes) : list event :=
  match Fernet_decrypt f ciphertext with
  | Raise e =>
    [Print (lit "[ERROR] Decryption verification failed: " ++ exception_message e)]
  | Return decrypted_text =>
    Print (lit "Internal decryption verification: OK!")
    :: match utf8_decode decrypted_text with
       | Some verified =>
         [Print (lit "Decrypted text for verification: " ++ verified)]
       | None =>
         [Print (lit "[ERROR] Decryption verification failed: "
                 ++ exception_message UnicodeDecodeError)]
       end
  end.

End Test_case_report.

(** The progress lines of the benchmark loop over [indices]. *)
Definition benchmark_progress (indices : list nat) : list event :=
  flat_map (fun i => if (i + 1) mod 100 =? 0
                     then [Print (benchmark_progress_line i)] else [])
           indices.

(** What one silent check may do without stopping the benchmark: return,
    or raise [InvalidToken]. *)
Definition returns_or_invalid_token (r : outcome bytes) : bool :=
  match r with
  | Return _ => true
  | Raise e => is_InvalidToken e
  end.

(** The stand-in library completed for the test-case script: encryption
    that always succeeds, a 16-byte salt, and a message for each
    exception. *)
Definition stub_encrypt (f : StubCrypto.fernet) (data : bytes) : outcome bytes :=
  Return (StubCrypto.Fernet_encrypt f data).

Definition stub_salt : bytes := repeat x2a 16.

Definition stub_message (e : exn) : str :=
  match e with
  | InvalidToken => []
  | UnicodeDecodeError => lit "'utf-8' codec can't decode"
  | _ => lit "error"
  end.



(** ** Floating-point numbers and the time estimates *)

(** A Python [float] is an IEEE 754 binary64 number: a [spec_float] with a
    53-bit mantissa and exponents up to 1024, every operation rounding to
    nearest, ties to even.  [S754_finite s m e] is [m * 2^e], negated when
    [s] is set. *)
Module Float.

Definition prec : Z := 53.
Definition emax : Z := 1024.

Definition float : Type := spec_float.

(** [float(n)] for an [int] [n], the conversion [int / float] and
    [float / int] apply to their [int] operand: correctly rounded, and
    [OverflowError] for an [int] beyond the largest float. *)
Definition of_int (n : Z) : outcome float :=
  match binary_normalize prec emax n 0 false with
  | S754_infinity _ => Raise (OtherError "OverflowError")
  | x => Return x
  end.

(** [a / b] on floats. *)
Definition truediv (a b : float) : outcome float :=
  match b with
  | S754_zero _ => Raise (OtherError "ZeroDivisionError")
  | _ => Return (SFdiv prec emax a b)
  end.


(** [n / b] and [a / n], [n * b] for an [int] [n]. *)
Definition int_truediv (n : Z) (b : float) : outcome float :=
  match of_int n with
  | Return a => truediv a b
  | Raise e => Raise e
  end.

Definition truediv_int (a : float) (n : Z) : outcome float :=
  match of_int n with
  | Return b => truediv a b
  | Raise e => Raise e
  end.


(** [x > 0]: the comparison of a float with the [int] 0 is exact, and
    false for a NaN. *)
Definition positive (x : float) : bool := SFltb (S754_zero false) x.


(** [x * y == n] in exact arithmetic, for finite [x] and [y] and an
    [int] [n]: no rounding is involved. *)
Definition product_is (x y : float) (n : Z) : bool :=
  match x, y with
  | S754_finite sx mx ex, S754_finite sy my ey =>
    let m := cond_Zopp (xorb sx sy) (Z.pos (mx * my)) in
    if (0 <=? ex + ey)%Z then (m * 2 ^ (ex + ey) =? n)%Z
    else (m =? n * 2 ^ (- (ex + ey)))%Z
  | S754_zero _, S754_finite _ _ _ | S754_finite _ _ _, S754_zero _
  | S754_zero _, S754_zero _ => (n =? 0)%Z
  | _, _ => false
  end.

(** [2.0], [2.0 ** 900] and the largest float. *)
Definition two : float := S754_finite false 4503599627370496 (-51).

End Float.



(** [Fase4_final_calculator.py], section 4.a: the literal [58.13] is the
    float nearest to 5813/100, and the estimate is made in seconds, minutes
    and hours, the average case in hours only. *)
Definition calculator_passwords_per_second : Float.float :=
  S754_finite false 8181070198095217 (-47).

Record time_estimate : Type := {
  time_seconds : Float.float;
  time_minutes : Float.float;
  time_hours : Float.float;
  avg_time_hours : Float.float
}.

Definition calculator_estimate (total_combinations : Z)
           (passwords_per_second : Float.float) : outcome (option time_estimate) :=
  if Float.positive passwords_per_second then
    match Float.int_truediv total_combinations passwords_per_second with
    | Raise e => Raise e
    | Return time_seconds =>
      match Float.truediv_int time_seconds 60 with
      | Raise e => Raise e
      | Return time_minutes =>
        match Float.truediv_int time_minutes 60 with
        | Raise e => Raise e
        | Return time_hours =>
          match Float.truediv_int time_hours 2 with
          | Raise e => Raise e
          | Return avg_time_hours =>
            Return (Some {| time_seconds := time_seconds;
                            time_minutes := time_minutes;
                            time_hours := time_hours;
                            avg_time_hours := avg_time_hours |})
          end
        end
      end
    end
  else Return None.

(* ================================================================== *)
(** * Part II. Properties                                               *)
(* ================================================================== *)

(** ** Lists *)

Lemma length_insert (A : Type) (k : nat) (x s : list A) :
  length (firstn k s ++ x ++ skipn k s) = length s + length x.
Proof.
  rewrite !length_app.
  rewrite <- (firstn_skipn k s) at 3.
  rewrite length_app. lia.
Qed.

Lemma nth_error_middle (A : Type) (w : list A) (i : nat) (c : A) :
  nth_error w i = Some c -> w = firstn i w ++ c :: skipn (i + 1) w.
Proof.
  revert i. induction w as [|a w IH]; intros [|i] H; simpl in *; try discriminate.
  - now inversion H.
  - f_equal. now apply IH.
Qed.

Lemma length_replace_middle (A : Type) (w u : list A) (i : nat) (c : A) :
  nth_error w i = Some c ->
  length (firstn i w ++ u ++ skipn (i + 1) w) + 1 = length w + length u.
Proof.
  intros H. rewrite (nth_error_middle w i H) at 3.
  rewrite !length_app. simpl. lia.
Qed.

Lemma length_for_each_constant (A B : Type) (c : nat) (body : A -> list B) (xs : list A) :
  (forall x, In x xs -> length (body x) = c) ->
  length (for_each xs body) = length xs * c.
Proof.
  intros H. unfold for_each. now apply flat_map_constant_length.
Qed.

Lemma length_range (n : nat) : length (range n) = n.
Proof. unfold range. apply length_seq. Qed.

Lemma in_range_lt (n i : nat) : In i (range n) <-> i < n.
Proof. unfold range. rewrite in_seq. lia. Qed.

(** ** The candidate generator *)

Section Generator_facts.

Variable upper : char -> str.
Variables symbols numbers : list str.

Local Abbreviation generator :=
  (password_generator upper symbols numbers).

(** The generator handles the words of the dictionary one after the
    other. *)
Lemma password_generator_cons (word : str) (dictionary : list str) :
  generator (word :: dictionary) = generator [word] ++ generator dictionary.
Proof.
  unfold password_generator, for_each. simpl.
  now rewrite app_nil_r.
Qed.

Lemma password_generator_nil : generator [] = [].
Proof. reflexivity. Qed.

(** Every yielded string comes from one choice of the six loop
    variables. *)
Lemma in_password_generator (p : str) (dictionary : list str) :
  In p (generator dictionary) <->
  exists base_word i c symbol j number k,
    In base_word dictionary /\ nth_error base_word i = Some c /\
    In symbol symbols /\ In number numbers /\
    let capitalized_word := firstn i base_word ++ upper c ++ skipn (i + 1) base_word in
    let word_with_sym := firstn j capitalized_word ++ symbol ++ skipn j capitalized_word in
    j <= length capitalized_word /\ k <= length word_with_sym /\
    p = firstn k word_with_sym ++ number ++ skipn k word_with_sym.
Proof.
  unfold password_generator, for_each. split.
  - intros H.
    apply in_flat_map in H. destruct H as (w & Hw & H).
    apply in_flat_map in H. destruct H as (i & Hi & H).
    destruct (nth_error w i) as [c|] eqn:Hc; [|contradiction].
    apply in_flat_map in H. destruct H as (symbol & Hs & H).
    apply in_flat_map in H. destruct H as (j & Hj & H).
    apply in_flat_map in H. destruct H as (number & Hn & H).
    apply in_flat_map in H. destruct H as (k & Hk & H).
    destruct H as [H|[]].
    apply in_range_lt in Hj. apply in_range_lt in Hk.
    exists w, i, c, symbol, j, number, k. cbv zeta.
    repeat split; auto; lia.
  - intros (w & i & c & symbol & j & number & k & Hw & Hc & Hs & Hn & H).
    cbv zeta in H. destruct H as (Hj & Hk & ->).
    apply in_flat_map. exists w. split; [assumption|].
    apply in_flat_map. exists i. split.
    + apply in_range_lt. apply nth_error_Some. congruence.
    + rewrite Hc.
      apply in_flat_map. exists symbol. split; [assumption|].
      apply in_flat_map. exists j. split; [apply in_range_lt; lia|].
      apply in_flat_map. exists number. split; [assumption|].
      apply in_flat_map. exists k. split; [apply in_range_lt; lia|].
      now left.
Qed.

(** The number of strings yielded for one word whose letters each have a
    one-character uppercase form. *)
Lemma length_password_generator_word (word : str) :
  single_upper upper word -> single_characters symbols ->
  length (generator [word]) =
  length word * (length symbols * ((length word + 1) *
                   (length numbers * (length word + 2)))).
Proof.
  intros Hu Hs. unfold password_generator.
  unfold for_each at 1. simpl flat_map. rewrite app_nil_r.
  rewrite length_for_each_constant
    with (c := length symbols * ((length word + 1) *
                 (length numbers * (length word + 2)))).
  - now rewrite length_range.
  - intros i Hi. apply in_range_lt in Hi.
    destruct (nth_error word i) as [c|] eqn:Hc.
    2:{ apply nth_error_None in Hc. lia. }
    assert (Hlen : length (firstn i word ++ upper c ++ skipn (i + 1) word)
                   = length word).
    { pose proof (length_replace_middle word (upper c) i Hc) as H.
      unfold single_upper in Hu. rewrite Forall_forall in Hu.
      rewrite (Hu c (nth_error_In _ _ Hc)) in H. lia. }
    cbv zeta. rewrite Hlen.
    apply length_for_each_constant. intros symbol Hsym.
    unfold single_characters in Hs. rewrite Forall_forall in Hs.
    rewrite length_for_each_constant
      with (c := length numbers * (length word + 2)).
    + now rewrite length_range.
    + intros j _. apply length_for_each_constant. intros number _.
      rewrite length_for_each_constant with (c := 1).
      * rewrite length_range, length_insert, Hlen, (Hs symbol Hsym). lia.
      * reflexivity.
Qed.

Lemma closed_form_count_nat (word : str) :
  Z.of_nat (length word * (length symbols * ((length word + 1) *
              (length numbers * (length word + 2))))) =
  closed_form_count (Z.of_nat (length word)) (Z.of_nat (length symbols))
                    (Z.of_nat (length numbers)).
Proof. unfold closed_form_count. lia. Qed.

Lemma length_password_generator (dictionary : list str) :
  Forall (single_upper upper) dictionary -> single_characters symbols ->
  Z.of_nat (length (generator dictionary)) =
  closed_form_total (Z.of_nat (length symbols)) (Z.of_nat (length numbers))
                    dictionary.
Proof.
  intros Hd Hs. induction Hd as [|word dictionary Hw Hd IH].
  - reflexivity.
  - rewrite password_generator_cons, length_app, Nat2Z.inj_add, IH.
    rewrite (length_password_generator_word Hw Hs), closed_form_count_nat.
    reflexivity.
Qed.

(** The calculator's loop computes the same sum. *)
Lemma total_combinations_from (dictionary : list str) (start : Z) :
  fold_left (fun total word =>
               (total + combinations_for_this_word symbols numbers word)%Z)
            dictionary start =
  (start + closed_form_total (Z.of_nat (length symbols))
                             (Z.of_nat (length numbers)) dictionary)%Z.
Proof.
  revert start. induction dictionary as [|word dictionary IH]; intros start.
  - simpl. lia.
  - simpl. rewrite IH.
    unfold combinations_for_this_word, closed_form_count. lia.
Qed.

Lemma total_combinations_closed_form (dictionary : list str) :
  total_combinations symbols numbers dictionary =
  closed_form_total (Z.of_nat (length symbols)) (Z.of_nat (length numbers))
                    dictionary.
Proof. unfold total_combinations. now rewrite total_combinations_from. Qed.

End Generator_facts.

(** ** The enumeration order *)

Lemma for_each_ext_in (A B : Type) (f g : A -> list B) (xs : list A) :
  (forall x, In x xs -> f x = g x) -> for_each xs f = concat (map g xs).
Proof.
  intros H. unfold for_each. rewrite flat_map_concat_map. f_equal.
  now apply map_ext_in.
Qed.

Lemma insert_at_slices (j : nat) (x s : str) :
  insert_at j x s = firstn j s ++ x ++ skipn j s.
Proof.
  revert s. induction j as [|j IH]; intros [|c s]; simpl.
  - reflexivity.
  - reflexivity.
  - now rewrite app_nil_r.
  - now rewrite IH.
Qed.

Lemma uppercase_only_at_slices (upper : char -> str) (i : nat) (word : str) (c : char) :
  nth_error word i = Some c ->
  uppercase_only_at upper i word = firstn i word ++ upper c ++ skipn (i + 1) word.
Proof.
  revert i. induction word as [|a word IH]; intros [|i] H; simpl in *;
    try discriminate.
  - now inversion H.
  - now rewrite (IH i H).
Qed.

Lemma insertion_positions_range (s : str) :
  insertion_positions s = range (length s + 1).
Proof. unfold insertion_positions, range. now rewrite Nat.add_1_r. Qed.

Lemma password_generator_spec_enumeration
      (upper : char -> str) (symbols numbers : list str) (dictionary : list str) :
  password_generator upper symbols numbers dictionary =
  spec_enumeration upper symbols numbers dictionary.
Proof.
  unfold password_generator, spec_enumeration.
  apply for_each_ext_in. intros word _.
  apply for_each_ext_in. intros i Hi.
  apply in_range_lt in Hi.
  destruct (nth_error word i) as [c|] eqn:Hc.
  2:{ apply nth_error_None in Hc. lia. }
  cbv zeta. rewrite (uppercase_only_at_slices upper i word Hc).
  apply for_each_ext_in. intros symbol _.
  rewrite insertion_positions_range.
  apply for_each_ext_in. intros j _.
  rewrite insert_at_slices.
  apply for_each_ext_in. intros number _.
  rewrite insertion_positions_range.
  generalize (range (length (firstn j (firstn i word ++ upper c ++ skipn (i + 1) word)
                             ++ symbol
                             ++ skipn j (firstn i word ++ upper c ++ skipn (i + 1) word))
                     + 1)).
  intros ks. unfold for_each.
  induction ks as [|k ks IH]; simpl; [reflexivity|].
  now rewrite IH, insert_at_slices.
Qed.

(** ** The inverse check *)

Lemma length_filter_insert (f : char -> bool) (k : nat) (x s : str) :
  length (filter f (firstn k s ++ x ++ skipn k s)) =
  length (filter f s) + length (filter f x).
Proof.
  rewrite !filter_app, !length_app.
  rewrite <- (firstn_skipn k s) at 3.
  rewrite filter_app, length_app. lia.
Qed.

Lemma length_filter_replace_middle (f : char -> bool) (w u : str) (i : nat) (c : char) :
  nth_error w i = Some c ->
  length (filter f (firstn i w ++ u ++ skipn (i + 1) w)) + length (filter f [c]) =
  length (filter f w) + length (filter f u).
Proof.
  intros H. rewrite (nth_error_middle w i H) at 3.
  change (c :: skipn (i + 1) w) with ([c] ++ skipn (i + 1) w).
  rewrite !filter_app, !length_app. lia.
Qed.

Lemma length_filter_none (f : char -> bool) (s : str) :
  (forall x, In x s -> f x = false) -> length (filter f s) = 0.
Proof.
  induction s as [|a s IH]; intros H; simpl; [reflexivity|].
  rewrite (H a (or_introl eq_refl)). apply IH. intros x Hx. apply H. now right.
Qed.

Lemma member_in (set : list str) (x : char) :
  In [x] set -> member set x = true.
Proof.
  intros H. unfold member. apply existsb_exists.
  exists [x]. split; [assumption|]. apply N.eqb_refl.
Qed.

Lemma not_member_neq (set : list str) (x u : char) :
  In [x] set -> member set u = false -> (x =? u)%N = false.
Proof.
  intros Hin Hu. destruct (x =? u)%N eqn:E; [|reflexivity].
  apply N.eqb_eq in E. subst u. rewrite (member_in set x Hin) in Hu. discriminate.
Qed.

Section Inverse_check_facts.

Variable upper : char -> str.
Variables symbols numbers : list str.

Lemma lowercase_letter_inv (c : char) :
  lowercase_letter upper symbols numbers c = true ->
  exists u, upper c = [u] /\ (u =? c)%N = false /\
            member symbols u = false /\ member numbers u = false /\
            member symbols c = false /\ member numbers c = false.
Proof.
  unfold lowercase_letter. destruct (upper c) as [|u [|? ?]]; try discriminate.
  intros H. repeat (apply andb_prop in H; destruct H as [H ?]).
  exists u. repeat split; try (now apply negb_true_iff).
Qed.

Lemma disjoint_symbol (symbol : str) :
  disjoint_character_sets symbols numbers = true -> In symbol symbols ->
  exists x, symbol = [x] /\ member numbers x = false.
Proof.
  unfold disjoint_character_sets. intros H Hin.
  apply andb_prop in H. destruct H as [H _].
  rewrite forallb_forall in H. specialize (H symbol Hin).
  destruct symbol as [|x [|? ?]]; try discriminate.
  exists x. split; [reflexivity|]. now apply negb_true_iff.
Qed.

Lemma disjoint_number (number : str) :
  disjoint_character_sets symbols numbers = true -> In number numbers ->
  exists x, number = [x] /\ member symbols x = false.
Proof.
  unfold disjoint_character_sets. intros H Hin.
  apply andb_prop in H. destruct H as [_ H].
  rewrite forallb_forall in H. specialize (H number Hin).
  destruct number as [|x [|? ?]]; try discriminate.
  exists x. split; [reflexivity|]. now apply negb_true_iff.
Qed.

Lemma count_members_letters (set : list str) (word : str) :
  (forall x, In x word -> member set x = false) -> count_members set word = 0.
Proof. apply length_filter_none. Qed.

(** A candidate built from a word of lowercase letters: one letter
    replaced by its uppercase form, one symbol and one digit inserted. *)
Lemma generated_candidate_structure (word p : str) :
  forallb (lowercase_letter upper symbols numbers) word = true ->
  disjoint_character_sets symbols numbers = true ->
  In p (password_generator upper symbols numbers [word]) ->
  length p = length word + 2 /\
  inverse_check upper symbols numbers word p = true.
Proof.
  intros Hw Hd Hp.
  apply in_password_generator in Hp.
  destruct Hp as (w1 & i & c & symbol & j & number & k & Hin & Hc & Hs & Hn & H).
  destruct Hin as [<-|[]]. rename word into w. cbv zeta in H. destruct H as (_ & _ & ->).
  rewrite forallb_forall in Hw.
  destruct (lowercase_letter_inv c (Hw c (nth_error_In _ _ Hc)))
    as (u & Hu & Huc & Hus & Hun & Hcs & Hcn).
  destruct (disjoint_symbol _ Hd Hs) as (sx & -> & Hsx).
  destruct (disjoint_number _ Hd Hn) as (dx & -> & Hdx).
  rewrite Hu.
  assert (Hletters_s : forall x, In x w -> member symbols x = false).
  { intros x Hx. now destruct (lowercase_letter_inv x (Hw x Hx)) as (? & ? & ? & ? & ? & ? & ?). }
  assert (Hletters_n : forall x, In x w -> member numbers x = false).
  { intros x Hx. now destruct (lowercase_letter_inv x (Hw x Hx)) as (? & ? & ? & ? & ? & ? & ?). }
  split.
  - rewrite !length_insert. pose proof (length_replace_middle w [u] i Hc) as L.
    simpl in *. lia.
  - unfold inverse_check. apply andb_true_intro. split; [apply andb_true_intro; split|].
    + apply existsb_exists. exists c. split; [now apply nth_error_In in Hc|].
      rewrite Hu. apply Nat.eqb_eq. unfold occurrences.
      rewrite !length_filter_insert.
      pose proof (length_filter_replace_middle (fun x => (x =? u)%N) w [u] i Hc) as L.
      simpl in *.
      rewrite (not_member_neq symbols sx u Hs Hus).
      rewrite (not_member_neq numbers dx u Hn Hun).
      rewrite N.eqb_refl in L. rewrite N.eqb_sym, Huc in L. simpl in *.
      unfold char in *. lia.
    + apply Nat.eqb_eq. unfold count_members.
      rewrite !length_filter_insert.
      pose proof (length_filter_replace_middle (member symbols) w [u] i Hc) as L.
      simpl in *. rewrite Hus, Hcs in L.
      rewrite (member_in symbols sx Hs), Hdx. simpl in *. lia.
    + apply Nat.eqb_eq. unfold count_members.
      rewrite !length_filter_insert.
      pose proof (length_filter_replace_middle (member numbers) w [u] i Hc) as L.
      simpl in *. rewrite Hun, Hcn in L.
      rewrite (member_in numbers dx Hn), Hsx. simpl in *. lia.
Qed.

End Inverse_check_facts.

(** ** The verifier *)

Section Verifier_facts.

Variable fernet : Type.
Variable PBKDF2HMAC_derive : Z -> bytes -> Z -> bytes -> outcome bytes.
Variable urlsafe_b64encode : bytes -> bytes.
Variable Fernet : bytes -> outcome fernet.
Variable Fernet_decrypt : fernet -> bytes -> outcome bytes.
Variables salt ciphertext : bytes.

Local Abbreviation decrypt' :=
  (decrypt PBKDF2HMAC_derive urlsafe_b64encode Fernet Fernet_decrypt salt
   ciphertext).
Local Abbreviation check' :=
  (check_password_silent PBKDF2HMAC_derive urlsafe_b64encode Fernet
   Fernet_decrypt salt ciphertext).
Local Abbreviation decryption' :=
  (authenticated_decryption PBKDF2HMAC_derive urlsafe_b64encode Fernet
   Fernet_decrypt salt ciphertext).
Local Abbreviation verdict' :=
  (verdict PBKDF2HMAC_derive urlsafe_b64encode Fernet Fernet_decrypt salt
   ciphertext).
Local Abbreviation console_output' :=
  (console_output PBKDF2HMAC_derive urlsafe_b64encode Fernet Fernet_decrypt
   salt ciphertext).

(** One run of [decrypt]: the console receives [console_output] and the
    call ends with [verdict], whatever was on the console before. *)
Lemma decrypt_run (passwd_bytes : bytes) (out : stdout) :
  decrypt' passwd_bytes out = (out ++ console_output' passwd_bytes, verdict' passwd_bytes).
Proof.
  unfold decrypt, console_output, verdict, authenticated_decryption,
    try_except, bind, lift, decode, print, ret, raise, banner.
  destruct (PBKDF2HMAC_derive 32 salt 100000 passwd_bytes) as [key_material|e].
  2:{ rewrite app_nil_r. destruct (is_InvalidToken e); reflexivity. }
  destruct (Fernet (urlsafe_b64encode key_material)) as [f|e].
  2:{ rewrite app_nil_r. destruct (is_InvalidToken e); reflexivity. }
  destruct (Fernet_decrypt f ciphertext) as [plaintext|e].
  2:{ rewrite app_nil_r. destruct (is_InvalidToken e); reflexivity. }
  destruct (utf8_decode passwd_bytes) as [password|];
    [destruct (utf8_decode plaintext) as [text|]|];
    simpl; repeat rewrite <- app_assoc; reflexivity.
Qed.

Lemma check_password_silent_run (passwd_bytes : bytes) (out : stdout) :
  check' passwd_bytes out =
  (out, match decryption' passwd_bytes with
        | Return _ => Return tt
        | Raise e => if is_InvalidToken e then Return tt else Raise e
        end).
Proof.
  unfold check_password_silent, authenticated_decryption, try_except, bind, lift, ret.
  destruct (PBKDF2HMAC_derive 32 salt 100000 passwd_bytes) as [key_material|e].
  2:{ destruct (is_InvalidToken e); reflexivity. }
  destruct (Fernet (urlsafe_b64encode key_material)) as [f|e].
  2:{ destruct (is_InvalidToken e); reflexivity. }
  destruct (Fernet_decrypt f ciphertext) as [plaintext|e].
  2:{ destruct (is_InvalidToken e); reflexivity. }
  reflexivity.
Qed.


Lemma verdict_false_silent (passwd_bytes : bytes) :
  verdict' passwd_bytes = Return false -> console_output' passwd_bytes = [].
Proof.
  unfold verdict, console_output.
  destruct (decryption' passwd_bytes) as [plaintext|e]; [|reflexivity].
  destruct (utf8_decode passwd_bytes), (utf8_decode plaintext); discriminate.
Qed.

Lemma verdict_true_output (passwd_bytes : bytes) :
  verdict' passwd_bytes = Return true ->
  exists plaintext password text,
    decryption' passwd_bytes = Return plaintext /\
    utf8_decode passwd_bytes = Some password /\
    utf8_decode plaintext = Some text /\
    console_output' passwd_bytes =
    banner ++ [Print (lit " -> Password: " ++ password);
               Print (lit " -> Plaintext: " ++ text);
               Print (str_mul (lit "=") 50)].
Proof.
  unfold verdict, console_output.
  destruct (decryption' passwd_bytes) as [plaintext|e].
  - destruct (utf8_decode passwd_bytes) as [password|] eqn:Hp;
      [destruct (utf8_decode plaintext) as [text|] eqn:Ht|]; try discriminate.
    intros _. exists plaintext, password, text. now rewrite Ht.
  - destruct (is_InvalidToken e); discriminate.
Qed.

End Verifier_facts.

(** ** The attack driver *)

Section Driver_facts.

Variable fernet : Type.
Variable PBKDF2HMAC_derive : Z -> bytes -> Z -> bytes -> outcome bytes.
Variable urlsafe_b64encode : bytes -> bytes.
Variable Fernet : bytes -> outcome fernet.
Variable Fernet_decrypt : fernet -> bytes -> outcome bytes.
Variables salt ciphertext : bytes.

Local Abbreviation decrypt' :=
  (decrypt PBKDF2HMAC_derive urlsafe_b64encode Fernet Fernet_decrypt salt
   ciphertext).
Local Abbreviation console_output' :=
  (console_output PBKDF2HMAC_derive urlsafe_b64encode Fernet Fernet_decrypt
   salt ciphertext).
Local Abbreviation rejected' :=
  (rejected PBKDF2HMAC_derive urlsafe_b64encode Fernet Fernet_decrypt salt
   ciphertext).
Local Abbreviation accepted' :=
  (accepted PBKDF2HMAC_derive urlsafe_b64encode Fernet Fernet_decrypt salt
   ciphertext).

(** One iteration on a candidate the verifier rejects: the counter is
    incremented, at most a progress line is printed, the loop goes on. *)
Lemma attack_loop_rejected (password_guess : str) (remaining : list str)
      (attempts : Z) (out : stdout) :
  rejected' password_guess = true ->
  attack_loop decrypt' (password_guess :: remaining) attempts out =
  attack_loop decrypt' remaining (attempts + 1)
              (out ++ progress_events [password_guess] attempts).
Proof.
  unfold rejected. intros H.
  destruct (utf8_encode password_guess) as [passwd_bytes|] eqn:He; [|discriminate].
  cbn [attack_loop progress_events]. unfold bind at 1.
  assert (Hstep : forall out',
             bind (encode password_guess)
                  (fun passwd_bytes0 =>
                     bind (decrypt' passwd_bytes0)
                          (fun found => if found then ret (true, (attempts + 1)%Z)
                                        else attack_loop decrypt' remaining (attempts + 1)))
                  out'
             = attack_loop decrypt' remaining (attempts + 1) out').
  { intros out'. unfold bind, encode. rewrite He. unfold ret at 1.
     rewrite decrypt_run.
    destruct (verdict _ _ _ _ _ _ passwd_bytes) as [[|]|e] eqn:Hv; try discriminate.
    rewrite (verdict_false_silent _ _ _ _ _ _ _ Hv), app_nil_r. reflexivity. }
  destruct ((attempts + 1) mod 5000 =? 0)%Z.
  - unfold print_progress. rewrite He. unfold emit.
    rewrite Hstep, app_nil_r. reflexivity.
  - unfold ret at 1. rewrite Hstep, !app_nil_r. reflexivity.
Qed.

(** One iteration on a candidate the verifier accepts: the loop is left
    at once, whatever candidates remain. *)
Lemma attack_loop_accepted (password_guess : str) (remaining : list str)
      (attempts : Z) (out : stdout) :
  accepted' password_guess = true ->
  exists passwd_bytes,
    utf8_encode password_guess = Some passwd_bytes /\
    attack_loop decrypt' (password_guess :: remaining) attempts out =
    (out ++ progress_events [password_guess] attempts ++ console_output' passwd_bytes,
     Return (true, (attempts + 1)%Z)).
Proof.
  unfold accepted. intros H.
  destruct (utf8_encode password_guess) as [passwd_bytes|] eqn:He; [|discriminate].
  exists passwd_bytes. split; [reflexivity|].
  cbn [attack_loop progress_events]. unfold bind at 1.
  assert (Hstep : forall out',
             bind (encode password_guess)
                  (fun passwd_bytes0 =>
                     bind (decrypt' passwd_bytes0)
                          (fun found => if found then ret (true, (attempts + 1)%Z)
                                        else attack_loop decrypt' remaining (attempts + 1)))
                  out'
             = (out' ++ console_output' passwd_bytes, Return (true, (attempts + 1)%Z))).
  { intros out'. unfold bind, encode. rewrite He. unfold ret at 1.
     rewrite decrypt_run.
    destruct (verdict _ _ _ _ _ _ passwd_bytes) as [[|]|e] eqn:Hv; try discriminate.
    reflexivity. }
  destruct ((attempts + 1) mod 5000 =? 0)%Z.
  - unfold print_progress. rewrite He. unfold emit.
    rewrite Hstep, app_nil_r, <- app_assoc. reflexivity.
  - unfold ret at 1. rewrite Hstep. reflexivity.
Qed.

Lemma progress_events_app (before after : list str) (attempts : Z) :
  progress_events (before ++ after) attempts =
  progress_events before attempts
  ++ progress_events after (attempts + Z.of_nat (length before)).
Proof.
  revert attempts. induction before as [|g before IH]; intros attempts.
  - simpl. now rewrite Z.add_0_r.
  - cbn [app progress_events length]. rewrite IH, <- app_assoc.
    do 3 f_equal. lia.
Qed.

(** A run of rejected candidates only advances the counter. *)
Lemma attack_loop_rejected_prefix (before remaining : list str)
      (attempts : Z) (out : stdout) :
  forallb rejected' before = true ->
  attack_loop decrypt' (before ++ remaining) attempts out =
  attack_loop decrypt' remaining (attempts + Z.of_nat (length before))
              (out ++ progress_events before attempts).
Proof.
  revert attempts out. induction before as [|g before IH]; intros attempts out H.
  - simpl. now rewrite Z.add_0_r, app_nil_r.
  - simpl in H. apply andb_prop in H. destruct H as [Hg Hb].
    change ((g :: before) ++ remaining) with (g :: (before ++ remaining)).
    rewrite (attack_loop_rejected g _ attempts out Hg), (IH _ _ Hb).
    change (g :: before) with ([g] ++ before).
    rewrite progress_events_app, <- app_assoc.
    f_equal. cbn [length app]. lia.
Qed.

Lemma attack_loop_exhausted (password_candidates : list str)
      (attempts : Z) (out : stdout) :
  forallb rejected' password_candidates = true ->
  attack_loop decrypt' password_candidates attempts out =
  (out ++ progress_events password_candidates attempts,
   Return (false, (attempts + Z.of_nat (length password_candidates))%Z)).
Proof.
  intros H. rewrite <- (app_nil_r password_candidates) at 1.
  now rewrite attack_loop_rejected_prefix.
Qed.

Lemma attack_loop_first_success (before after : list str) (password_guess : str)
      (attempts : Z) (out : stdout) :
  forallb rejected' before = true ->
  accepted' password_guess = true ->
  exists passwd_bytes,
    utf8_encode password_guess = Some passwd_bytes /\
    attack_loop decrypt' (before ++ password_guess :: after) attempts out =
    (out ++ progress_events (before ++ [password_guess]) attempts
         ++ console_output' passwd_bytes,
     Return (true, (attempts + Z.of_nat (length before) + 1)%Z)).
Proof.
  intros Hb Hg. rewrite (attack_loop_rejected_prefix _ _ _ _ Hb).
  destruct (attack_loop_accepted password_guess after
              (attempts + Z.of_nat (length before))
              (out ++ progress_events before attempts) Hg)
    as (passwd_bytes & He & Hrun).
  exists passwd_bytes. split; [assumption|].
  rewrite Hrun, progress_events_app, <- !app_assoc. reflexivity.
Qed.

End Driver_facts.

(** ** The reference configuration *)

Lemma str_upper_single (c : char) :
  c <> 223%N -> length (str_upper c) = 1.
Proof.
  intros H. unfold str_upper.
  destruct ((97 <=? c) && (c <=? 122))%N; [reflexivity|].
  destruct (c =? 181)%N; [reflexivity|].
  destruct (c =? 223)%N eqn:E; [apply N.eqb_eq in E; contradiction|].
  destruct ((224 <=? c) && (c <=? 254) && negb (c =? 247))%N; [reflexivity|].
  destruct (c =? 255)%N; reflexivity.
Qed.

(** Words that do not contain U+00DF, all-ASCII words among them, keep
    their length under [str_upper]. *)
Lemma single_upper_without_sharp_s (word : str) :
  ~ In 223%N word -> single_upper str_upper word.
Proof.
  intros H. apply Forall_forall. intros c Hc.
  apply str_upper_single. intros ->. contradiction.
Qed.

Lemma cracker_symbols_single : single_characters Cracker.symbols.
Proof. repeat constructor. Qed.

Lemma cracker_full_dictionary_single_upper :
  Forall (single_upper str_upper) Cracker.full_dictionary.
Proof. repeat constructor. Qed.

Lemma cracker_numbers_digits : Cracker.numbers = digits_0_to_9.
Proof. reflexivity. Qed.

Lemma cracker_disjoint_sets :
  disjoint_character_sets Cracker.symbols Cracker.numbers = true.
Proof. reflexivity. Qed.

(** The letters a..z are lowercase letters of the reference
    configuration. *)
Lemma ascii_lowercase_letter (c : char) :
  (97 <= c <= 122)%N ->
  lowercase_letter str_upper Cracker.symbols Cracker.numbers c = true.
Proof.
  intros Hc.
  assert (Hall : forallb (lowercase_letter str_upper Cracker.symbols Cracker.numbers)
                         (map N.of_nat (seq 97 26)) = true) by reflexivity.
  rewrite forallb_forall in Hall. apply Hall.
  apply in_map_iff. exists (N.to_nat c). split.
  - apply N2Nat.id.
  - apply in_seq. lia.
Qed.

(** ** The characters of a candidate *)

Lemma in_insert (A : Type) (x : A) (k : nat) (y s : list A) :
  In x (firstn k s ++ y ++ skipn k s) -> In x s \/ In x y.
Proof.
  rewrite !in_app_iff. rewrite <- (firstn_skipn k s) at 3. rewrite in_app_iff.
  tauto.
Qed.

Lemma in_replace_middle (A : Type) (x : A) (i : nat) (u w : list A) :
  In x (firstn i w ++ u ++ skipn (i + 1) w) -> In x w \/ In x u.
Proof.
  rewrite !in_app_iff. intros [H|[H|H]]; auto; left.
  - rewrite <- (firstn_skipn i w). apply in_or_app. now left.
  - rewrite <- (firstn_skipn (i + 1) w). apply in_or_app. now right.
Qed.

Lemma candidate_alphabet (upper : char -> str) (symbols numbers : list str)
      (dictionary : list str) (p : str) :
  In p (password_generator upper symbols numbers dictionary) ->
  incl p (alphabet upper symbols numbers dictionary).
Proof.
  intros Hp x Hx.
  apply in_password_generator in Hp.
  destruct Hp as (w & i & c & symbol & j & number & k & Hw & Hc & Hs & Hn & H).
  cbv zeta in H. destruct H as (_ & _ & ->).
  unfold alphabet. rewrite !in_app_iff.
  apply in_insert in Hx. destruct Hx as [Hx|Hx].
  - apply in_insert in Hx. destruct Hx as [Hx|Hx].
    + apply in_replace_middle in Hx. destruct Hx as [Hx|Hx].
      * left. apply in_concat. now exists w.
      * right. left. apply in_flat_map. exists c. split; [|assumption].
        apply in_concat. exists w. split; [assumption|].
        now apply nth_error_In in Hc.
    + right. right. left. apply in_concat. now exists symbol.
  - right. right. right. apply in_concat. now exists number.
Qed.

Lemma utf8_encode_below_surrogates (s : str) :
  Forall (fun c => (c < 55296)%N) s -> exists bs, utf8_encode s = Some bs.
Proof.
  induction 1 as [|c s Hc _ [bs IH]].
  - now exists [].
  - simpl. rewrite IH. unfold utf8_encode_char.
    destruct (c <? 128)%N; [eexists; reflexivity|].
    destruct (c <? 2048)%N; [eexists; reflexivity|].
    replace ((55296 <=? c)%N) with false by (symmetry; apply N.leb_gt; exact Hc).
    cbn [andb].
    destruct (c <? 65536)%N eqn:E; [eexists; reflexivity|].
    apply N.ltb_ge in E. lia.
Qed.

Lemma cracker_candidates_encode (ATTACK_MODE : string) (p : str) :
  In p (Cracker.password_candidates ATTACK_MODE) ->
  exists bs, utf8_encode p = Some bs.
Proof.
  intros Hp. apply utf8_encode_below_surrogates. apply Forall_forall.
  intros x Hx. apply candidate_alphabet in Hp. specialize (Hp x Hx).
  unfold Cracker.dictionary_to_use in Hp.
  destruct (String.eqb ATTACK_MODE "QUICK_TEST").
  - assert (Hall : forallb (fun c => (c <? 55296)%N)
                     (alphabet str_upper Cracker.symbols Cracker.numbers
                               [lit "sicurezza"]) = true) by reflexivity.
    rewrite forallb_forall in Hall. apply N.ltb_lt. now apply Hall.
  - assert (Hall : forallb (fun c => (c <? 55296)%N)
                     (alphabet str_upper Cracker.symbols Cracker.numbers
                               Cracker.full_dictionary) = true) by reflexivity.
    rewrite forallb_forall in Hall. apply N.ltb_lt. now apply Hall.
Qed.

(** With the stand-in library, a Target whose token is empty is opened by
    no password. *)
Lemma stub_empty_token_rejects (salt_byte : byte) (salt : bytes) (p : str) :
  (exists bs, utf8_encode p = Some bs) ->
  rejected StubCrypto.PBKDF2HMAC_derive StubCrypto.urlsafe_b64encode
           StubCrypto.Fernet StubCrypto.Fernet_decrypt (salt_byte :: salt) [] p
  = true.
Proof.
  intros [bs H]. unfold rejected. rewrite H. reflexivity.
Qed.

(* ================================================================== *)
(** * Part III. The statements of the specification                    *)
(* ================================================================== *)

(** ** Candidate generator *)

(** C1, as amended. For every base word of length [n] each of whose
    characters has a one-character uppercase form (every word without
    U+00DF among the Latin-1 words, so every word of the scripts), and for
    symbol entries that are single characters, the generator yields exactly
    [n * |symbols| * (n+1) * |digits| * (n+2)] strings, whatever the sizes
    of the two sets; the total for a word list is the sum of this count over
    its words, which is also what the calculator's loop computes; in quick
    test mode (the single word "sicurezza", 10 symbols, 10 digits) the
    generator yields exactly 99000 strings. *)
Theorem candidate_count_closed_form :
  (forall (upper : char -> str) (symbols numbers : list str),
      single_characters symbols ->
      (forall word : str,
          single_upper upper word ->
          Z.of_nat (length (password_generator upper symbols numbers [word])) =
          closed_form_count (Z.of_nat (length word)) (Z.of_nat (length symbols))
                            (Z.of_nat (length numbers)))
      /\
      (forall dictionary : list str,
          Forall (single_upper upper) dictionary ->
          Z.of_nat (length (password_generator upper symbols numbers dictionary)) =
          closed_form_total (Z.of_nat (length symbols)) (Z.of_nat (length numbers))
                            dictionary
          /\ total_combinations symbols numbers dictionary =
             closed_form_total (Z.of_nat (length symbols)) (Z.of_nat (length numbers))
                               dictionary))
  /\
  (length Cracker.symbols = 10 /\ length Cracker.numbers = 10 /\
   Cracker.dictionary_to_use "QUICK_TEST" = [lit "sicurezza"] /\
   Z.of_nat (length (Cracker.password_candidates "QUICK_TEST")) = 99000%Z).
Proof.
  split.
  - intros upper symbols numbers Hs. split.
    + intros word Hw.
      rewrite (length_password_generator_word numbers Hw Hs).
      apply closed_form_count_nat.
    + intros dictionary Hd. split.
      * now apply length_password_generator.
      * apply total_combinations_closed_form.
  - split; [reflexivity|]. split; [reflexivity|]. split; [reflexivity|].
    unfold Cracker.password_candidates.
    rewrite length_password_generator.
    + reflexivity.
    + repeat constructor.
    + exact cracker_symbols_single.
Qed.

Lemma candidate_count_closed_form_witness :
  single_characters Cracker.symbols /\
  single_upper str_upper (lit "gatto") /\
  Z.of_nat (length (password_generator str_upper Cracker.symbols Cracker.numbers
                                       [lit "gatto"])) =
  closed_form_count 5 10 10.
Proof.
  assert (Hs : single_characters Cracker.symbols) by (repeat constructor).
  assert (Hw : single_upper str_upper (lit "gatto")) by (repeat constructor).
  split; [exact Hs|]. split; [exact Hw|].
  exact (proj1 (proj1 candidate_count_closed_form str_upper Cracker.symbols
                      Cracker.numbers Hs) (lit "gatto") Hw).
Defined.

(** C1 fails as stated: the one-letter word U+00DF (sharp s) has the
    two-character uppercase form "SS"; the generator yields 1200 strings
    for it, the formula gives 600. *)
Lemma sharp_s_count_exceeds_closed_form :
  Z.of_nat (length (password_generator str_upper Cracker.symbols Cracker.numbers
                                       [[223%N]])) = 1200%Z /\
  closed_form_count (Z.of_nat (length [223%N])) (Z.of_nat (length Cracker.symbols))
                    (Z.of_nat (length Cracker.numbers)) = 600%Z /\
  Z.of_nat (length (password_generator str_upper Cracker.symbols Cracker.numbers
                                       [[223%N]])) <>
  closed_form_count (Z.of_nat (length [223%N])) (Z.of_nat (length Cracker.symbols))
                    (Z.of_nat (length Cracker.numbers)).
Proof.
  split; [vm_compute; reflexivity|]. split; [vm_compute; reflexivity|].
  vm_compute. discriminate.
Qed.

(** C2. The generator yields its strings in the nested order of the
    specification: base words in word-list order; letter positions left to
    right, the variant having only that position uppercased; symbols in set
    order; symbol positions 0 to the length of the capitalized word
    inclusive; the digits "0" to "9" in order; digit positions 0 to the
    length of the word with its symbol inclusive. *)
Theorem generator_enumeration_order :
  forall (upper : char -> str) (symbols : list str) (dictionary : list str),
    password_generator upper symbols Cracker.numbers dictionary =
    spec_enumeration upper symbols digits_0_to_9 dictionary.
Proof.
  intros upper symbols dictionary.
  rewrite cracker_numbers_digits.
  apply password_generator_spec_enumeration.
Qed.

(** C5, as amended. For a base word of length [n] made of lowercase
    letters (each has a one-character uppercase form different from it,
    and neither form is a symbol or a digit; the letters a to z are such
    letters in the reference configuration), and for disjoint sets of
    one-character symbols and digits, every string the generator yields has
    length [n+2] and passes the inverse check: the uppercased letter occurs
    once more than in the base word, and one symbol and one digit more than
    in the base word are present. *)
Theorem generated_candidates_pass_inverse_check :
  forall (upper : char -> str) (symbols numbers : list str) (word p : str),
    forallb (lowercase_letter upper symbols numbers) word = true ->
    disjoint_character_sets symbols numbers = true ->
    In p (password_generator upper symbols numbers [word]) ->
    length p = length word + 2 /\
    inverse_check upper symbols numbers word p = true.
Proof.
  intros upper symbols numbers word p.
  apply generated_candidate_structure.
Qed.

Lemma generated_candidates_pass_inverse_check_witness :
  forallb (lowercase_letter str_upper Cracker.symbols Cracker.numbers) (lit "ab") = true /\
  disjoint_character_sets Cracker.symbols Cracker.numbers = true /\
  In (lit "!A1b") (password_generator str_upper Cracker.symbols Cracker.numbers
                                      [lit "ab"]) /\
  length (lit "!A1b") = length (lit "ab") + 2 /\
  inverse_check str_upper Cracker.symbols Cracker.numbers (lit "ab") (lit "!A1b") = true.
Proof.
  assert (Hin : In (lit "!A1b")
                   (password_generator str_upper Cracker.symbols Cracker.numbers
                                       [lit "ab"])).
  { apply (nth_error_In _ 6). vm_compute. reflexivity. }
  split; [reflexivity|]. split; [reflexivity|]. split; [exact Hin|].
  exact (generated_candidates_pass_inverse_check
           str_upper Cracker.symbols Cracker.numbers (lit "ab") (lit "!A1b")
           eq_refl eq_refl Hin).
Defined.

(** C5 fails as stated: the first string yielded for the one-letter word
    U+00DF is "0!SS", of length 4 instead of 3, and the inverse check
    rejects it. *)
Lemma sharp_s_candidate_fails_inverse_check :
  nth_error (password_generator str_upper Cracker.symbols Cracker.numbers [[223%N]]) 0
  = Some (lit "0!SS") /\
  length (lit "0!SS") <> length [223%N] + 2 /\
  inverse_check str_upper Cracker.symbols Cracker.numbers [223%N] (lit "0!SS") = false.
Proof.
  split; [vm_compute; reflexivity|]. split; [vm_compute; discriminate|].
  vm_compute. reflexivity.
Qed.

(** ** Verifier *)

Section Verifier_statements.

Variable fernet : Type.
Variable PBKDF2HMAC_derive : Z -> bytes -> Z -> bytes -> outcome bytes.
Variable urlsafe_b64encode : bytes -> bytes.
Variable Fernet : bytes -> outcome fernet.
Variable Fernet_decrypt : fernet -> bytes -> outcome bytes.
Variables salt ciphertext : bytes.

Local Abbreviation decrypt' :=
  (decrypt PBKDF2HMAC_derive urlsafe_b64encode Fernet Fernet_decrypt salt
   ciphertext).
Local Abbreviation check' :=
  (check_password_silent PBKDF2HMAC_derive urlsafe_b64encode Fernet
   Fernet_decrypt salt ciphertext).
Local Abbreviation decryption' :=
  (authenticated_decryption PBKDF2HMAC_derive urlsafe_b64encode Fernet
   Fernet_decrypt salt ciphertext).



(** C9. When the authenticated decryption succeeds, [decrypt] first
    prints the two banner lines; it then raises [UnicodeDecodeError] if the
    candidate bytes are not valid UTF-8, prints the password line and raises
    [UnicodeDecodeError] if the recovered plaintext is not valid UTF-8, and
    otherwise prints the password, the plaintext and the closing rule before
    it returns [True]. *)
Theorem decrypt_success_branch :
  forall (passwd_bytes plaintext : bytes) (out : stdout),
    decryption' passwd_bytes = Return plaintext ->
    (utf8_decode passwd_bytes = None ->
     decrypt' passwd_bytes out = (out ++ banner, Raise UnicodeDecodeError))
    /\
    (forall password,
        utf8_decode passwd_bytes = Some password ->
        utf8_decode plaintext = None ->
        decrypt' passwd_bytes out =
        (out ++ banner ++ [Print (lit " -> Password: " ++ password)],
         Raise UnicodeDecodeError))
    /\
    (forall password text,
        utf8_decode passwd_bytes = Some password ->
        utf8_decode plaintext = Some text ->
        decrypt' passwd_bytes out =
        (out ++ banner ++ [Print (lit " -> Password: " ++ password);
                           Print (lit " -> Plaintext: " ++ text);
                           Print (str_mul (lit "=") 50)],
         Return true)).
Proof.
  intros passwd_bytes plaintext out H.
   rewrite decrypt_run.
  unfold verdict, console_output. rewrite H.
  repeat split.
  - now intros ->.
  - now intros password -> ->.
  - now intros password text -> ->.
Qed.

(** C6, as amended. The verifier is deterministic: what [decrypt] returns
    or raises, and what it prints, depend only on the candidate bytes and
    the Target, not on the state of the console it is called in. A call
    that returns [False] prints nothing; a call that returns [True] has
    printed the banner, the password, the plaintext and the closing rule. *)
Theorem verifier_deterministic_prints_on_success :
  forall (passwd_bytes : bytes) (out1 out2 : stdout),
    snd (decrypt' passwd_bytes out1) = snd (decrypt' passwd_bytes out2) /\
    (exists written,
        fst (decrypt' passwd_bytes out1) = out1 ++ written /\
        fst (decrypt' passwd_bytes out2) = out2 ++ written) /\
    (snd (decrypt' passwd_bytes out1) = Return false ->
     fst (decrypt' passwd_bytes out1) = out1) /\
    (snd (decrypt' passwd_bytes out1) = Return true ->
     exists plaintext password text,
       decryption' passwd_bytes = Return plaintext /\
       utf8_decode passwd_bytes = Some password /\
       utf8_decode plaintext = Some text /\
       fst (decrypt' passwd_bytes out1) =
       out1 ++ banner ++ [Print (lit " -> Password: " ++ password);
                          Print (lit " -> Plaintext: " ++ text);
                          Print (str_mul (lit "=") 50)]).
Proof.
  intros passwd_bytes out1 out2. rewrite !decrypt_run.
  cbn [fst snd]. split; [reflexivity|]. split; [eexists; split; reflexivity|].
  split.
  - intros H. rewrite (verdict_false_silent _ _ _ _ _ _ _ H). apply app_nil_r.
  - intros H.
    destruct (verdict_true_output _ _ _ _ _ _ _ H)
      as (plaintext & password & text & Hd & Hp & Ht & Hout).
    exists plaintext, password, text. repeat split; try assumption.
    now rewrite Hout.
Qed.

End Verifier_statements.



Lemma decrypt_success_branch_witness :
  authenticated_decryption StubCrypto.PBKDF2HMAC_derive StubCrypto.urlsafe_b64encode
                           StubCrypto.Fernet StubCrypto.Fernet_decrypt []
                           StubCrypto.binary_target StubCrypto.right_password
  = Return [xff] /\
  utf8_decode StubCrypto.right_password = Some (lit "Ab!1") /\
  utf8_decode [xff] = None /\
  StubCrypto.decrypt [] StubCrypto.binary_target StubCrypto.right_password [] =
  (banner ++ [Print (lit " -> Password: " ++ lit "Ab!1")], Raise UnicodeDecodeError).
Proof.
  assert (H : authenticated_decryption
                StubCrypto.PBKDF2HMAC_derive StubCrypto.urlsafe_b64encode
                StubCrypto.Fernet StubCrypto.Fernet_decrypt []
                StubCrypto.binary_target StubCrypto.right_password
              = Return [xff]) by reflexivity.
  assert (Hp : utf8_decode StubCrypto.right_password = Some (lit "Ab!1"))
    by reflexivity.
  assert (Ht : utf8_decode [xff] = None) by reflexivity.
  split; [exact H|]. split; [exact Hp|]. split; [exact Ht|].
  exact (proj1 (proj2 (decrypt_success_branch
                         StubCrypto.PBKDF2HMAC_derive StubCrypto.urlsafe_b64encode
                         StubCrypto.Fernet StubCrypto.Fernet_decrypt []
                         StubCrypto.binary_target StubCrypto.right_password [] H))
               (lit "Ab!1") Hp Ht).
Defined.

Lemma verifier_deterministic_prints_on_success_witness :
  snd (StubCrypto.decrypt [] StubCrypto.text_target StubCrypto.wrong_password
                          [Print (lit "earlier")])
  = Return false /\
  fst (StubCrypto.decrypt [] StubCrypto.text_target StubCrypto.wrong_password
                          [Print (lit "earlier")])
  = [Print (lit "earlier")].
Proof.
  assert (H : snd (StubCrypto.decrypt [] StubCrypto.text_target
                                      StubCrypto.wrong_password
                                      [Print (lit "earlier")])
              = Return false) by reflexivity.
  split; [exact H|].
  exact (proj1 (proj2 (proj2 (verifier_deterministic_prints_on_success
                                StubCrypto.PBKDF2HMAC_derive StubCrypto.urlsafe_b64encode
                                StubCrypto.Fernet StubCrypto.Fernet_decrypt []
                                StubCrypto.text_target StubCrypto.wrong_password
                                [Print (lit "earlier")] [])))
               H).
Defined.

(** C6 fails as stated: a call of [decrypt] that accepts its candidate
    writes to the console. With the stand-in library and a Target
    encrypted under "Ab!1", the call on "Ab!1" returns [True] and leaves
    five lines on a console that was empty. *)
Lemma accepting_decrypt_prints :
  snd (StubCrypto.decrypt [] StubCrypto.text_target StubCrypto.right_password [])
  = Return true /\
  length (fst (StubCrypto.decrypt [] StubCrypto.text_target
                                  StubCrypto.right_password [])) = 5 /\
  fst (StubCrypto.decrypt [] StubCrypto.text_target StubCrypto.right_password [])
  <> [].
Proof.
  split; [reflexivity|]. split; [reflexivity|].
  vm_compute. discriminate.
Qed.

(** ** Attack driver *)

Section Driver_statements.

Variable fernet : Type.
Variable PBKDF2HMAC_derive : Z -> bytes -> Z -> bytes -> outcome bytes.
Variable urlsafe_b64encode : bytes -> bytes.
Variable Fernet : bytes -> outcome fernet.
Variable Fernet_decrypt : fernet -> bytes -> outcome bytes.
Variables salt ciphertext : bytes.

Variable upper : char -> str.
Variables symbols numbers : list str.

Local Abbreviation decrypt' :=
  (decrypt PBKDF2HMAC_derive urlsafe_b64encode Fernet Fernet_decrypt salt
   ciphertext).
Local Abbreviation rejected' :=
  (rejected PBKDF2HMAC_derive urlsafe_b64encode Fernet Fernet_decrypt salt
   ciphertext).
Local Abbreviation accepted' :=
  (accepted PBKDF2HMAC_derive urlsafe_b64encode Fernet Fernet_decrypt salt
   ciphertext).

(** C4, as amended. The driver tests the candidates in generation order.
    If the verifier rejects the candidates before some candidate and
    accepts that one, the loop is left there: the run is the run on the
    candidates up to and including it, the state is Succeeded and the
    counter is its position (counted from 1). If the verifier rejects
    every candidate, the state is Exhausted and the counter is the number
    of candidates yielded; this number is the closed-form total when every
    character of every word has a one-character uppercase form and the
    symbols are single characters. *)
Theorem attack_driver_outcome :
  forall (dictionary : list str) (out : stdout),
    (forall (before after : list str) (password_guess : str),
        password_generator upper symbols numbers dictionary
        = before ++ password_guess :: after ->
        forallb rejected' before = true ->
        accepted' password_guess = true ->
        exists out' password_found attempts,
          attack_loop decrypt' (password_generator upper symbols numbers dictionary)
                      0 out
          = (out', Return (password_found, attempts)) /\
          attack_loop decrypt' (before ++ [password_guess]) 0 out
          = (out', Return (password_found, attempts)) /\
          final_state password_found = Succeeded /\
          attempts = (Z.of_nat (length before) + 1)%Z)
    /\
    (forallb rejected' (password_generator upper symbols numbers dictionary) = true ->
     exists password_found attempts,
       attack_loop decrypt' (password_generator upper symbols numbers dictionary) 0 out
       = (out ++ progress_events (password_generator upper symbols numbers dictionary) 0,
          Return (password_found, attempts)) /\
       final_state password_found = Exhausted /\
       attempts = Z.of_nat (length (password_generator upper symbols numbers dictionary)) /\
       (Forall (single_upper upper) dictionary -> single_characters symbols ->
        attempts = closed_form_total (Z.of_nat (length symbols))
                                     (Z.of_nat (length numbers)) dictionary)).
Proof.
  intros dictionary out. split.
  - intros before after password_guess Hsplit Hb Hg. rewrite Hsplit.
    destruct (attack_loop_first_success
                PBKDF2HMAC_derive urlsafe_b64encode Fernet Fernet_decrypt
                salt ciphertext before after password_guess 0 out Hb Hg)
      as (passwd_bytes & He & Hrun).
    destruct (attack_loop_first_success
                PBKDF2HMAC_derive urlsafe_b64encode Fernet Fernet_decrypt
                salt ciphertext before [] password_guess 0 out Hb Hg)
      as (passwd_bytes' & He' & Hrun').
    rewrite He in He'. inversion He'; subst passwd_bytes'.
    eexists. exists true. eexists.
    split; [exact Hrun|]. split; [exact Hrun'|]. split; [reflexivity|]. lia.
  - intros Hall. exists false. eexists.
    split; [apply (attack_loop_exhausted
                     PBKDF2HMAC_derive urlsafe_b64encode Fernet Fernet_decrypt
                     salt ciphertext _ 0 out Hall)|].
    split; [reflexivity|]. split; [lia|].
    intros Hd Hs. rewrite Z.add_0_l. now apply length_password_generator.
Qed.

End Driver_statements.

Lemma attack_driver_outcome_witness :
  password_generator str_upper Cracker.symbols Cracker.numbers [lit "a"]
  = firstn 5 (password_generator str_upper Cracker.symbols Cracker.numbers [lit "a"])
    ++ lit "!A1"
    :: skipn 6 (password_generator str_upper Cracker.symbols Cracker.numbers [lit "a"]) /\
  forallb (rejected StubCrypto.PBKDF2HMAC_derive StubCrypto.urlsafe_b64encode
                    StubCrypto.Fernet StubCrypto.Fernet_decrypt [] StubCrypto.short_target)
          (firstn 5 (password_generator str_upper Cracker.symbols Cracker.numbers
                                        [lit "a"])) = true /\
  accepted StubCrypto.PBKDF2HMAC_derive StubCrypto.urlsafe_b64encode
           StubCrypto.Fernet StubCrypto.Fernet_decrypt [] StubCrypto.short_target
           (lit "!A1") = true /\
  (exists out',
      attack_loop (StubCrypto.decrypt [] StubCrypto.short_target)
                  (password_generator str_upper Cracker.symbols Cracker.numbers [lit "a"])
                  0 []
      = (out', Return (true, 6%Z))) /\
  forallb (rejected StubCrypto.PBKDF2HMAC_derive StubCrypto.urlsafe_b64encode
                    StubCrypto.Fernet StubCrypto.Fernet_decrypt
                    StubCrypto.closed_salt StubCrypto.closed_target)
          (password_generator str_upper Cracker.symbols Cracker.numbers [lit "a"])
  = true /\
  (exists out',
      attack_loop (StubCrypto.decrypt StubCrypto.closed_salt StubCrypto.closed_target)
                  (password_generator str_upper Cracker.symbols Cracker.numbers [lit "a"])
                  0 []
      = (out', Return (false, 600%Z))).
Proof.
  assert (Hsplit :
            password_generator str_upper Cracker.symbols Cracker.numbers [lit "a"]
            = firstn 5 (password_generator str_upper Cracker.symbols Cracker.numbers
                                           [lit "a"])
              ++ lit "!A1"
              :: skipn 6 (password_generator str_upper Cracker.symbols Cracker.numbers
                                             [lit "a"]))
    by (vm_compute; reflexivity).
  assert (Hb : forallb (rejected StubCrypto.PBKDF2HMAC_derive StubCrypto.urlsafe_b64encode
                                 StubCrypto.Fernet StubCrypto.Fernet_decrypt []
                                 StubCrypto.short_target)
                       (firstn 5 (password_generator str_upper Cracker.symbols
                                                     Cracker.numbers [lit "a"])) = true)
    by (vm_compute; reflexivity).
  assert (Hg : accepted StubCrypto.PBKDF2HMAC_derive StubCrypto.urlsafe_b64encode
                        StubCrypto.Fernet StubCrypto.Fernet_decrypt []
                        StubCrypto.short_target (lit "!A1") = true)
    by (vm_compute; reflexivity).
  assert (Hall : forallb (rejected StubCrypto.PBKDF2HMAC_derive
                                   StubCrypto.urlsafe_b64encode
                                   StubCrypto.Fernet StubCrypto.Fernet_decrypt
                                   StubCrypto.closed_salt StubCrypto.closed_target)
                         (password_generator str_upper Cracker.symbols Cracker.numbers
                                             [lit "a"]) = true)
    by (vm_compute; reflexivity).
  split; [exact Hsplit|]. split; [exact Hb|]. split; [exact Hg|]. split; [|split].
  - destruct (proj1 (attack_driver_outcome
                       StubCrypto.PBKDF2HMAC_derive StubCrypto.urlsafe_b64encode
                       StubCrypto.Fernet StubCrypto.Fernet_decrypt []
                       StubCrypto.short_target str_upper Cracker.symbols
                       Cracker.numbers [lit "a"] [])
                    _ _ _ Hsplit Hb Hg)
      as (out' & password_found & attempts & Hrun & _ & Hstate & Hattempts).
    exists out'. unfold StubCrypto.decrypt. rewrite Hrun.
    destruct password_found; [|discriminate Hstate].
    rewrite Hattempts. reflexivity.
  - exact Hall.
  - destruct (proj2 (attack_driver_outcome
                       StubCrypto.PBKDF2HMAC_derive StubCrypto.urlsafe_b64encode
                       StubCrypto.Fernet StubCrypto.Fernet_decrypt
                       StubCrypto.closed_salt StubCrypto.closed_target str_upper
                       Cracker.symbols Cracker.numbers [lit "a"] [])
                    Hall)
      as (password_found & attempts & Hrun & Hstate & Hattempts & _).
    eexists. unfold StubCrypto.decrypt. rewrite Hrun.
    destruct password_found; [discriminate Hstate|].
    rewrite Hattempts. reflexivity.
Defined.

(** C4 fails as stated: on the dictionary made of the one-letter word
    U+00DF, with a Target no password opens, the driver ends after 1200
    attempts without success, while the closed-form total is 600. *)
Lemma sharp_s_exhaustion_exceeds_closed_form :
  attack_loop (StubCrypto.decrypt StubCrypto.closed_salt StubCrypto.closed_target)
              (password_generator str_upper Cracker.symbols Cracker.numbers [[223%N]])
              0 []
  = ([], Return (false, 1200%Z)) /\
  closed_form_total (Z.of_nat (length Cracker.symbols)) (Z.of_nat (length Cracker.numbers))
                    [[223%N]] = 600%Z.
Proof. split; vm_compute; reflexivity. Qed.

(** ** The dictionaries of the calculator and of the cracker *)

Lemma cracker_full_mode_count :
  Z.of_nat (length (Cracker.password_candidates "FULL")) = 350400%Z.
Proof.
  unfold Cracker.password_candidates.
  rewrite length_password_generator.
  - reflexivity.
  - exact cracker_full_dictionary_single_upper.
  - exact cracker_symbols_single.
Qed.

(** C10. The calculator's dictionary has 10 words and contains
    "password"; the cracker's full dictionary has 9 words and does not.
    The calculator's total is 422400; in FULL mode the generator yields
    350400 strings, 72000 fewer, which is the calculator's count for
    "password"; a FULL-mode run in which every candidate is rejected ends
    with 350400 attempts. *)
Theorem calculator_total_exceeds_full_mode_count :
  length Calculator.dictionary = 10 /\
  In (lit "password") Calculator.dictionary /\
  length Cracker.full_dictionary = 9 /\
  ~ In (lit "password") Cracker.full_dictionary /\
  Cracker.dictionary_to_use "FULL" = Cracker.full_dictionary /\
  total_combinations Calculator.special_chars Calculator.numbers Calculator.dictionary
  = 422400%Z /\
  Z.of_nat (length (Cracker.password_candidates "FULL")) = 350400%Z /\
  combinations_for_this_word Calculator.special_chars Calculator.numbers (lit "password")
  = 72000%Z /\
  (total_combinations Calculator.special_chars Calculator.numbers Calculator.dictionary
   - Z.of_nat (length (Cracker.password_candidates "FULL")))%Z
  = combinations_for_this_word Calculator.special_chars Calculator.numbers
                               (lit "password") /\
  (forall (fernet : Type)
          (PBKDF2HMAC_derive : Z -> bytes -> Z -> bytes -> outcome bytes)
          (urlsafe_b64encode : bytes -> bytes)
          (Fernet : bytes -> outcome fernet)
          (Fernet_decrypt : fernet -> bytes -> outcome bytes)
          (salt ciphertext : bytes) (out : stdout),
      forallb (rejected PBKDF2HMAC_derive urlsafe_b64encode Fernet Fernet_decrypt
                        salt ciphertext)
              (Cracker.password_candidates "FULL") = true ->
      attack_loop (decrypt PBKDF2HMAC_derive urlsafe_b64encode Fernet Fernet_decrypt
                           salt ciphertext)
                  (Cracker.password_candidates "FULL") 0 out
      = (out ++ progress_events (Cracker.password_candidates "FULL") 0,
         Return (false, 350400%Z))).
Proof.
  split; [reflexivity|].
  split; [apply (nth_error_In _ 3); reflexivity|].
  split; [reflexivity|].
  split.
  { intros H. vm_compute in H.
    repeat (destruct H as [H|H]; [discriminate H|]). exact H. }
  split; [reflexivity|].
  split; [reflexivity|].
  split; [exact cracker_full_mode_count|].
  split; [reflexivity|].
  split; [rewrite cracker_full_mode_count; reflexivity|].
  intros fernet PBKDF2HMAC_derive urlsafe_b64encode Fernet Fernet_decrypt
         salt ciphertext out Hall.
  rewrite (attack_loop_exhausted _ _ _ _ _ _ _ 0 out Hall).
  now rewrite Z.add_0_l, cracker_full_mode_count.
Qed.

Lemma closed_target_rejects_full_mode :
  forallb (rejected StubCrypto.PBKDF2HMAC_derive StubCrypto.urlsafe_b64encode
                    StubCrypto.Fernet StubCrypto.Fernet_decrypt
                    StubCrypto.closed_salt StubCrypto.closed_target)
          (Cracker.password_candidates "FULL") = true.
Proof.
  apply forallb_forall. intros p Hp.
  apply stub_empty_token_rejects. now apply cracker_candidates_encode in Hp.
Qed.

Lemma calculator_total_exceeds_full_mode_count_witness :
  forallb (rejected StubCrypto.PBKDF2HMAC_derive StubCrypto.urlsafe_b64encode
                    StubCrypto.Fernet StubCrypto.Fernet_decrypt
                    StubCrypto.closed_salt StubCrypto.closed_target)
          (Cracker.password_candidates "FULL") = true /\
  attack_loop (decrypt StubCrypto.PBKDF2HMAC_derive StubCrypto.urlsafe_b64encode
                       StubCrypto.Fernet StubCrypto.Fernet_decrypt
                       StubCrypto.closed_salt StubCrypto.closed_target)
              (Cracker.password_candidates "FULL") 0 []
  = ([] ++ progress_events (Cracker.password_candidates "FULL") 0,
     Return (false, 350400%Z)).
Proof.
  split; [exact closed_target_rejects_full_mode|].
  exact (proj2 (proj2 (proj2 (proj2 (proj2 (proj2 (proj2 (proj2 (proj2
           calculator_total_exceeds_full_mode_count))))))))
           StubCrypto.fernet StubCrypto.PBKDF2HMAC_derive StubCrypto.urlsafe_b64encode
           StubCrypto.Fernet StubCrypto.Fernet_decrypt
           StubCrypto.closed_salt StubCrypto.closed_target []
           closed_target_rejects_full_mode).
Defined.

(** ** The hardcoded Targets *)

(** The verifier reads the key derivation only at length 32, the
    module-level salt and 100000 iterations. *)
Lemma decrypt_reference_parameters
      (fernet : Type)
      (derive1 derive2 : Z -> bytes -> Z -> bytes -> outcome bytes)
      (urlsafe_b64encode : bytes -> bytes) (Fernet : bytes -> outcome fernet)
      (Fernet_decrypt : fernet -> bytes -> outcome bytes) (salt ciphertext : bytes) :
  (forall key_material,
      derive1 32%Z salt 100000%Z key_material = derive2 32%Z salt 100000%Z key_material) ->
  forall passwd_bytes out,
    decrypt derive1 urlsafe_b64encode Fernet Fernet_decrypt salt ciphertext
            passwd_bytes out
    = decrypt derive2 urlsafe_b64encode Fernet Fernet_decrypt salt ciphertext
              passwd_bytes out
    /\
    check_password_silent derive1 urlsafe_b64encode Fernet Fernet_decrypt salt
                          ciphertext passwd_bytes out
    = check_password_silent derive2 urlsafe_b64encode Fernet Fernet_decrypt salt
                            ciphertext passwd_bytes out.
Proof.
  intros H passwd_bytes out.
  unfold decrypt, check_password_silent, try_except, bind, lift.
  now rewrite H.
Qed.

(** C8, evaluated on the code. Both salt literals lex; the cracker's salt
    has 16 bytes, the benchmark's has 18: its source writes [\da] where the
    cracker's writes [\xda], and the undefined escape stands for the two
    bytes of the backslash and of [d], followed by [a]. The two salts
    differ, and so do the two ciphertexts. *)
Theorem benchmark_salt_has_18_bytes :
  bytes_literal Cracker.salt_source = Some Cracker.salt /\
  length Cracker.salt = 16 /\
  bytes_literal Benchmark.salt_source = Some Benchmark.salt /\
  length Benchmark.salt = 18 /\
  firstn 3 (skipn 7 Benchmark.salt) = [x5c; x64; x61] /\
  firstn 1 (skipn 7 Cracker.salt) = [xda] /\
  Benchmark.salt <> Cracker.salt /\
  Benchmark.ciphertext <> Cracker.ciphertext.
Proof.
  repeat (split; [vm_compute; reflexivity|]).
  split; intros H.
  - apply (f_equal (@length byte)) in H. vm_compute in H. discriminate.
  - apply (f_equal (fun l => nth_error l 7)) in H. vm_compute in H. discriminate.
Qed.

(** ** Time estimates *)

(** Binary64 arithmetic: the steps of the rounding algorithm. *)

























(** The calculator's run: 422400 combinations at 58.13 per second, the
    float nearest to 5813/100.  Its worst case in seconds is the
    benchmark's, and its average case in hours is [T / (2r)] taken to
    hours. *)
Lemma calculator_estimate_values :
  Float.of_int 100 = Return (S754_finite false 7036874417766400 (-46)) /\
  Float.int_truediv 5813 (S754_finite false 7036874417766400 (-46))
  = Return calculator_passwords_per_second /\
  calculator_estimate (total_combinations Calculator.special_chars Calculator.numbers
                                          Calculator.dictionary)
                      calculator_passwords_per_second
  = Return (Some {| time_seconds := S754_finite false 7989570128549499 (-40);
                    time_minutes := S754_finite false 8522208137119466 (-46);
                    time_hours := S754_finite false 4545177673130382 (-51);
                    avg_time_hours := S754_finite false 4545177673130382 (-52) |}) /\
  Float.truediv_int (S754_finite false 7989570128549499 (-41)) 60
  = Return (S754_finite false 8522208137119466 (-47)) /\
  Float.truediv_int (S754_finite false 8522208137119466 (-47)) 60
  = Return (S754_finite false 4545177673130382 (-52)).
Proof.
  split; [vm_compute; reflexivity|]. split; [vm_compute; reflexivity|].
  split; [vm_compute; reflexivity|]. split; vm_compute; reflexivity.
Qed.

(** The quotient is a rounded one: already for the calculator's values the
    worst-case estimate times the throughput is not the total. *)
Lemma worst_case_quotient_is_rounded :
  Float.int_truediv 422400 calculator_passwords_per_second
  = Return (S754_finite false 7989570128549499 (-40)) /\
  Float.product_is (S754_finite false 7989570128549499 (-40))
                   calculator_passwords_per_second 422400 = false /\
  Float.product_is Float.two Float.two 4 = true.
Proof. split; [|split]; vm_compute; reflexivity. Qed.

(* ================================================================== *)
(** * Part IV. Further properties of the code                          *)
(* ================================================================== *)

(** ** The candidate generator: membership, emptiness, exact count *)

Lemma list_sum_indices (A : Type) (g : option A -> nat) (l : list A) (start : nat) :
  list_sum (map (fun i => g (nth_error l (i - start))) (seq start (length l))) =
  list_sum (map (fun c => g (Some c)) l).
Proof.
  revert start. induction l as [|a l IH]; intros start; [reflexivity|].
  assert (Hcons : forall x t, list_sum (x :: t) = x + list_sum t) by reflexivity.
  cbn [length seq map]. rewrite !Hcons, Nat.sub_diag. cbn [nth_error].
  rewrite <- (IH (S start)). f_equal. f_equal.
  apply map_ext_in. intros i Hi. apply in_seq in Hi.
  replace (i - start) with (S (i - S start)) by lia. reflexivity.
Qed.

Lemma length_for_each (A B : Type) (body : A -> list B) (xs : list A) :
  length (for_each xs body) = list_sum (map (fun x => length (body x)) xs).
Proof. unfold for_each. apply length_flat_map. Qed.

Lemma length_password_generator_exact
      (upper : char -> str) (symbols numbers : list str) (dictionary : list str) :
  length (password_generator upper symbols numbers dictionary) =
  exact_count upper symbols numbers dictionary.
Proof.
  unfold password_generator, exact_count. rewrite length_for_each.
  f_equal. apply map_ext. intros word.
  rewrite length_for_each. unfold exact_count_word, range.
  rewrite <- (list_sum_indices
                (fun o => match o with
                          | Some c =>
                            list_sum (map (fun symbol =>
                              (length word - 1 + length (upper c) + 1)
                              * (length numbers
                                 * (length word - 1 + length (upper c)
                                    + length symbol + 1))) symbols)
                          | None => 0
                          end) word 0).
  f_equal. apply map_ext_in. intros i Hi. apply in_seq in Hi.
  rewrite Nat.sub_0_r.
  destruct (nth_error word i) as [c|] eqn:Hc.
  2:{ apply nth_error_None in Hc. lia. }
  cbv zeta.
  assert (Hlen : length (firstn i word ++ upper c ++ skipn (i + 1) word)
                 = length word - 1 + length (upper c)).
  { pose proof (length_replace_middle word (upper c) i Hc). lia. }
  rewrite length_for_each. f_equal. apply map_ext. intros symbol.
  rewrite Hlen.
  rewrite length_for_each_constant
    with (c := length numbers
               * (length word - 1 + length (upper c) + length symbol + 1)).
  - now rewrite length_range.
  - intros j _. apply length_for_each_constant. intros number _.
    rewrite length_for_each_constant with (c := 1).
    + rewrite length_range, length_insert, Hlen. lia.
    + reflexivity.
Qed.

(** X1.  For every uppercase function, symbol list, digit list and word
    list, also when an uppercase form or a symbol entry is longer than one
    character, the number of strings the generator yields is
    [exact_count]: the sum, over the letters [c] of each word and the
    symbols [s], of [(L+1) * |digits| * (L + len(s) + 1)] with
    [L = len(word) - 1 + len(c.upper())].  It is computed from lengths
    alone. *)
Theorem generator_count_exact :
  forall (upper : char -> str) (symbols numbers : list str) (dictionary : list str),
    length (password_generator upper symbols numbers dictionary) =
    exact_count upper symbols numbers dictionary.
Proof.
  intros upper symbols numbers dictionary.
  apply length_password_generator_exact.
Qed.

Lemma in_password_generator_spec
      (upper : char -> str) (symbols numbers : list str) (dictionary : list str)
      (p : str) :
    In p (password_generator upper symbols numbers dictionary) <->
    exists word i symbol j number k,
      In word dictionary /\ i < length word /\
      In symbol symbols /\ In number numbers /\
      j <= length (uppercase_only_at upper i word) /\
      k <= length (insert_at j symbol (uppercase_only_at upper i word)) /\
      p = insert_at k number (insert_at j symbol (uppercase_only_at upper i word)).
Proof.
  rewrite in_password_generator. split.
  - intros (w & i & c & symbol & j & number & k & Hw & Hc & Hs & Hn & H).
    cbv zeta in H. destruct H as (Hj & Hk & ->).
    exists w, i, symbol, j, number, k.
    rewrite (uppercase_only_at_slices upper i w Hc), !insert_at_slices.
    repeat split; try assumption.
    apply nth_error_Some. congruence.
  - intros (w & i & symbol & j & number & k & Hw & Hi & Hs & Hn & Hj & Hk & ->).
    destruct (nth_error w i) as [c|] eqn:Hc.
    2:{ apply nth_error_None in Hc. lia. }
    rewrite (uppercase_only_at_slices upper i w Hc), !insert_at_slices in *.
    exists w, i, c, symbol, j, number, k. cbv zeta. repeat split; assumption.
Qed.

(** X2.  A string is yielded exactly when it is a word of the dictionary
    with one position uppercased, one symbol of the set inserted at a
    position of the capitalized word (its end included) and one digit of the
    set inserted at a position of the result (its end included). *)
Theorem generator_membership :
  forall (upper : char -> str) (symbols numbers : list str) (dictionary : list str)
         (p : str),
    In p (password_generator upper symbols numbers dictionary) <->
    exists word i symbol j number k,
      In word dictionary /\ i < length word /\
      In symbol symbols /\ In number numbers /\
      j <= length (uppercase_only_at upper i word) /\
      k <= length (insert_at j symbol (uppercase_only_at upper i word)) /\
      p = insert_at k number (insert_at j symbol (uppercase_only_at upper i word)).
Proof.
  intros upper symbols numbers dictionary p.
  apply in_password_generator_spec.
Qed.

(** X3.  The generator yields nothing exactly when the symbol list is
    empty, or the digit list is empty, or every word of the dictionary is
    the empty string (the empty dictionary included). *)
Theorem generator_empty_iff :
  forall (upper : char -> str) (symbols numbers : list str) (dictionary : list str),
    password_generator upper symbols numbers dictionary = [] <->
    symbols = [] \/ numbers = [] \/ Forall (fun word => word = []) dictionary.
Proof.
  intros upper symbols numbers dictionary. split.
  - intros Hempty.
    destruct symbols as [|symbol symbols']; [now left|].
    destruct numbers as [|number numbers']; [right; now left|].
    right. right. apply Forall_forall. intros [|c word] Hw; [reflexivity|].
    exfalso.
    assert (Hin : In (insert_at 0 number
                        (insert_at 0 symbol (uppercase_only_at upper 0 (c :: word))))
                     (password_generator upper (symbol :: symbols')
                                         (number :: numbers') dictionary)).
    { apply in_password_generator_spec.
      exists (c :: word), 0, symbol, 0, number, 0.
      repeat split; simpl; auto with arith. }
    rewrite Hempty in Hin. contradiction.
  - intros H.
    destruct (password_generator upper symbols numbers dictionary) as [|p l] eqn:E;
      [reflexivity|].
    exfalso.
    assert (Hp : In p (password_generator upper symbols numbers dictionary))
      by (rewrite E; now left).
    apply in_password_generator in Hp.
    destruct Hp as (w & i & c & symbol & j & number & k & Hw & Hc & Hs & Hn & _).
    destruct H as [->|[->|H]]; try contradiction.
    rewrite Forall_forall in H. rewrite (H w Hw) in Hc.
    destruct i; discriminate.
Qed.

(** ** The UTF-8 codec *)

Ltac divlia := zify; Z.to_euclidean_division_equations; lia.

Ltac decide_comparisons :=
  repeat (match goal with
          | |- context [(?a <? ?b)%N] =>
            first [ rewrite (proj2 (N.ltb_lt a b)) by lia
                  | rewrite (proj2 (N.ltb_ge a b)) by lia ]
          | |- context [(?a <=? ?b)%N] =>
            first [ rewrite (proj2 (N.leb_le a b)) by lia
                  | rewrite (proj2 (N.leb_gt a b)) by lia ]
          | |- context [(?a =? ?b)%N] =>
            first [ rewrite (proj2 (N.eqb_eq a b)) by lia
                  | rewrite (proj2 (N.eqb_neq a b)) by lia ]
          end; cbn [andb orb negb]).

Lemma to_N_byte_of_N (n : N) : (n < 256)%N -> Byte.to_N (byte_of_N n) = n.
Proof.
  intros H. unfold byte_of_N. rewrite N.mod_small by assumption.
  destruct (Byte.of_N n) as [b|] eqn:E.
  - now apply Byte.to_of_N.
  - apply Byte.of_N_None_iff in E. lia.
Qed.

Lemma continuation_byte (d : N) :
  (d < 64)%N ->
  is_cont (byte_of_N (128 + d)) = true /\ low6 (byte_of_N (128 + d)) = d /\
  Byte.to_N (byte_of_N (128 + d)) = (128 + d)%N.
Proof.
  intros H. unfold is_cont, low6. rewrite to_N_byte_of_N by lia.
  repeat split.
  - decide_comparisons. reflexivity.
  - divlia.
Qed.

(** One decoding step for each length of a well-formed sequence. *)
Lemma utf8_decode_1 (b0 : byte) (r : bytes) :
  (Byte.to_N b0 < 128)%N ->
  utf8_decode (b0 :: r) = option_map (cons (Byte.to_N b0)) (utf8_decode r).
Proof.
  intros H. cbn [utf8_decode]. decide_comparisons. reflexivity.
Qed.

Lemma utf8_decode_2 (b0 b1 : byte) (r : bytes) :
  (194 <= Byte.to_N b0 <= 223)%N -> is_cont b1 = true ->
  utf8_decode (b0 :: b1 :: r) =
  option_map (cons ((Byte.to_N b0 - 192) * 64 + low6 b1)%N) (utf8_decode r).
Proof.
  intros H0 H1. remember (b1 :: r) as tail eqn:E.
  cbn [utf8_decode]. unfold in_range. decide_comparisons.
  subst tail. cbv beta iota. now rewrite H1.
Qed.

Lemma utf8_decode_3 (b0 b1 b2 : byte) (r : bytes) :
  (224 <= Byte.to_N b0 <= 239)%N ->
  (if (Byte.to_N b0 =? 224)%N then in_range 160 191 b1
   else if (Byte.to_N b0 =? 237)%N then in_range 128 159 b1
        else is_cont b1) = true ->
  is_cont b2 = true ->
  utf8_decode (b0 :: b1 :: b2 :: r) =
  option_map (cons ((Byte.to_N b0 - 224) * 4096 + low6 b1 * 64 + low6 b2)%N)
             (utf8_decode r).
Proof.
  intros H0 H1 H2. remember (b1 :: b2 :: r) as tail eqn:E.
  cbn [utf8_decode]. do 2 (unfold in_range at 1; decide_comparisons).
  subst tail. cbv beta iota. now rewrite H1, H2.
Qed.

Lemma utf8_decode_4 (b0 b1 b2 b3 : byte) (r : bytes) :
  (240 <= Byte.to_N b0 <= 244)%N ->
  (if (Byte.to_N b0 =? 240)%N then in_range 144 191 b1
   else if (Byte.to_N b0 =? 244)%N then in_range 128 143 b1
        else is_cont b1) = true ->
  is_cont b2 = true -> is_cont b3 = true ->
  utf8_decode (b0 :: b1 :: b2 :: b3 :: r) =
  option_map
    (cons ((Byte.to_N b0 - 240) * 262144 + low6 b1 * 4096 + low6 b2 * 64 + low6 b3)%N)
    (utf8_decode r).
Proof.
  intros H0 H1 H2 H3. remember (b1 :: b2 :: b3 :: r) as tail eqn:E.
  cbn [utf8_decode]. do 3 (unfold in_range at 1; decide_comparisons).
  subst tail. cbv beta iota. now rewrite H1, H2, H3.
Qed.

Ltac take_encoding :=
  let H := fresh "H" in
  intros H;
  apply (f_equal (fun o => match o with Some x => x | None => [] end)) in H;
  cbv beta iota in H;
  match type of H with _ = ?bs => subst bs end;
  cbn [app].

Lemma utf8_decode_encode_char (c : char) (bs rest : bytes) :
  utf8_encode_char c = Some bs ->
  utf8_decode (bs ++ rest) = option_map (cons c) (utf8_decode rest).
Proof.
  unfold utf8_encode_char.
  destruct (N.ltb_spec c 128) as [H1|H1].
  { take_encoding.
    rewrite utf8_decode_1; rewrite to_N_byte_of_N by lia; [reflexivity|lia]. }
  destruct (N.ltb_spec c 2048) as [H2|H2].
  { take_encoding.
    remember (c / 64)%N as a eqn:Ea. remember (c mod 64)%N as d eqn:Ed.
    assert (Hc : (c = 64 * a + d /\ d < 64)%N) by (subst a d; divlia).
    clear Ea Ed. destruct Hc as [-> Hd].
    destruct (continuation_byte Hd) as (Hcont & Hlow & _).
    rewrite utf8_decode_2; rewrite ?to_N_byte_of_N by lia;
      [rewrite Hlow; do 2 f_equal; lia | lia | exact Hcont]. }
  destruct ((55296 <=? c) && (c <=? 57343))%N eqn:Hs; [discriminate|].
  assert (Hsur : (c < 55296 \/ 57343 < c)%N).
  { apply andb_false_iff in Hs. destruct Hs as [Hs|Hs].
    - left. now apply N.leb_gt.
    - right. now apply N.leb_gt. }
  clear Hs.
  destruct (N.ltb_spec c 65536) as [H3|H3].
  { take_encoding.
    remember (c / 4096)%N as a eqn:Ea. remember ((c / 64) mod 64)%N as b eqn:Eb.
    remember (c mod 64)%N as d eqn:Ed.
    assert (Hc : (c = 4096 * a + 64 * b + d /\ b < 64 /\ d < 64)%N)
      by (subst a b d; divlia).
    clear Ea Eb Ed. destruct Hc as (-> & Hb & Hd).
    destruct (continuation_byte Hb) as (Hcb & Hlb & Htb).
    destruct (continuation_byte Hd) as (Hcd & Hld & _).
    rewrite utf8_decode_3; rewrite ?to_N_byte_of_N by lia.
    - rewrite Hlb, Hld. do 2 f_equal. lia.
    - lia.
    - unfold in_range, is_cont. rewrite Htb.
      destruct (N.eqb_spec (224 + a) 224); [decide_comparisons; reflexivity|].
      destruct (N.eqb_spec (224 + a) 237); decide_comparisons; reflexivity.
    - exact Hcd. }
  destruct (N.ltb_spec c 1114112) as [H4|H4]; [|discriminate].
  take_encoding.
  remember (c / 262144)%N as a eqn:Ea. remember ((c / 4096) mod 64)%N as b eqn:Eb.
  remember ((c / 64) mod 64)%N as e eqn:Ee. remember (c mod 64)%N as d eqn:Ed.
  assert (Hc : (c = 262144 * a + 4096 * b + 64 * e + d
                /\ b < 64 /\ e < 64 /\ d < 64)%N)
    by (subst a b e d; divlia).
  clear Ea Eb Ee Ed. destruct Hc as (-> & Hb & He & Hd).
  destruct (continuation_byte Hb) as (Hcb & Hlb & Htb).
  destruct (continuation_byte He) as (Hce & Hle & _).
  destruct (continuation_byte Hd) as (Hcd & Hld & _).
  rewrite utf8_decode_4; rewrite ?to_N_byte_of_N by lia.
  - rewrite Hlb, Hle, Hld. do 2 f_equal. lia.
  - lia.
  - unfold in_range, is_cont. rewrite Htb.
    destruct (N.eqb_spec (240 + a) 240); [decide_comparisons; reflexivity|].
    destruct (N.eqb_spec (240 + a) 244); decide_comparisons; reflexivity.
  - exact Hce.
  - exact Hcd.
Qed.

Lemma utf8_decode_encode (s : str) (bs : bytes) :
  utf8_encode s = Some bs -> utf8_decode bs = Some s.
Proof.
  revert bs. induction s as [|c s IH]; intros bs H.
  - inversion H. reflexivity.
  - cbn [utf8_encode] in H.
    destruct (utf8_encode_char c) as [cs|] eqn:Hc; [|discriminate].
    destruct (utf8_encode s) as [rs|] eqn:Hs; [|discriminate].
    inversion H; subst bs.
    rewrite (utf8_decode_encode_char c rs Hc), (IH rs eq_refl). reflexivity.
Qed.

(** ** The attack driver: every outcome of the loop *)

Section Driver_outcomes.

Variable fernet : Type.
Variable PBKDF2HMAC_derive : Z -> bytes -> Z -> bytes -> outcome bytes.
Variable urlsafe_b64encode : bytes -> bytes.
Variable Fernet : bytes -> outcome fernet.
Variable Fernet_decrypt : fernet -> bytes -> outcome bytes.
Variables salt ciphertext : bytes.

Local Abbreviation decrypt' :=
  (decrypt PBKDF2HMAC_derive urlsafe_b64encode Fernet Fernet_decrypt salt
     ciphertext).
Local Abbreviation decryption' :=
  (authenticated_decryption PBKDF2HMAC_derive urlsafe_b64encode Fernet
     Fernet_decrypt salt ciphertext).
Local Abbreviation verdict' :=
  (verdict PBKDF2HMAC_derive urlsafe_b64encode Fernet Fernet_decrypt salt
     ciphertext).
Local Abbreviation console_output' :=
  (console_output PBKDF2HMAC_derive urlsafe_b64encode Fernet Fernet_decrypt
     salt ciphertext).
Local Abbreviation rejected' :=
  (rejected PBKDF2HMAC_derive urlsafe_b64encode Fernet Fernet_decrypt salt
     ciphertext).
Local Abbreviation accepted' :=
  (accepted PBKDF2HMAC_derive urlsafe_b64encode Fernet Fernet_decrypt salt
     ciphertext).

(** One iteration of the loop, in each of its four outcomes.  A candidate
    that cannot be encoded stops the loop at the progress line, when one is
    due, and at [encode] otherwise: in both cases with [UnicodeEncodeError]
    and nothing written. *)
Lemma attack_loop_step (password_guess : str) (remaining : list str)
      (attempts : Z) (out : stdout) :
  attack_loop decrypt' (password_guess :: remaining) attempts out =
  match utf8_encode password_guess with
  | None => (out, Raise UnicodeEncodeError)
  | Some passwd_bytes =>
    match verdict' passwd_bytes with
    | Return true =>
      (out ++ progress_events [password_guess] attempts
           ++ console_output' passwd_bytes,
       Return (true, (attempts + 1)%Z))
    | Return false =>
      attack_loop decrypt' remaining (attempts + 1)
                  (out ++ progress_events [password_guess] attempts)
    | Raise e =>
      (out ++ progress_events [password_guess] attempts
           ++ console_output' passwd_bytes,
       Raise e)
    end
  end.
Proof.
  cbn [attack_loop progress_events]. unfold bind at 1.
  assert (Hstep : forall out',
             bind (encode password_guess)
                  (fun passwd_bytes =>
                     bind (decrypt' passwd_bytes)
                          (fun found => if found then ret (true, (attempts + 1)%Z)
                                        else attack_loop decrypt' remaining (attempts + 1)))
                  out'
             = match utf8_encode password_guess with
               | None => (out', Raise UnicodeEncodeError)
               | Some passwd_bytes =>
                 match verdict' passwd_bytes with
                 | Return true =>
                   (out' ++ console_output' passwd_bytes,
                    Return (true, (attempts + 1)%Z))
                 | Return false =>
                   attack_loop decrypt' remaining (attempts + 1) out'
                 | Raise e => (out' ++ console_output' passwd_bytes, Raise e)
                 end
               end).
  { intros out'. unfold bind, encode.
    destruct (utf8_encode password_guess) as [passwd_bytes|]; [|reflexivity].
    unfold ret at 1. rewrite decrypt_run.
    destruct (verdict' passwd_bytes) as [[|]|e] eqn:Hv; try reflexivity.
    now rewrite (verdict_false_silent _ _ _ _ _ _ _ Hv), app_nil_r. }
  unfold print_progress.
  destruct ((attempts + 1) mod 5000 =? 0)%Z.
  - destruct (utf8_encode password_guess) as [passwd_bytes|] eqn:He;
      [|reflexivity].
    unfold emit. rewrite Hstep, ?He, app_nil_r.
    destruct (verdict' passwd_bytes) as [[|]|e]; now rewrite <- ?app_assoc.
  - unfold ret at 1. rewrite Hstep, !app_nil_r.
    destruct (utf8_encode password_guess) as [passwd_bytes|]; [|reflexivity].
    destruct (verdict' passwd_bytes) as [[|]|e]; reflexivity.
Qed.

(** What a normal end of the loop tells about the candidates. *)
Lemma attack_loop_result_sound (password_candidates : list str) :
  forall (attempts : Z) (out out' : stdout) (password_found : bool) (final : Z),
    attack_loop decrypt' password_candidates attempts out
    = (out', Return (password_found, final)) ->
    if password_found
    then exists before password_guess after,
        password_candidates = before ++ password_guess :: after /\
        forallb rejected' before = true /\
        accepted' password_guess = true /\
        final = (attempts + Z.of_nat (length before) + 1)%Z
    else forallb rejected' password_candidates = true /\
         final = (attempts + Z.of_nat (length password_candidates))%Z.
Proof.
  induction password_candidates as [|g cands IH];
    intros attempts out out' password_found final H.
  - cbn in H. inversion H; subst. split; [reflexivity|]. cbn. lia.
  - rewrite attack_loop_step in H.
    destruct (utf8_encode g) as [b|] eqn:He; [|discriminate].
    destruct (verdict' b) as [[|]|e] eqn:Hv; [| |discriminate].
    + inversion H; subst. exists [], g, cands.
      split; [reflexivity|]. split; [reflexivity|].
      split; [unfold accepted; now rewrite He, Hv|]. cbn. lia.
    + apply IH in H.
      assert (Hg : rejected' g = true) by (unfold rejected; now rewrite He, Hv).
      destruct password_found.
      * destruct H as (before & g' & after & -> & Hb & Ha & ->).
        exists (g :: before), g', after.
        split; [reflexivity|]. split; [cbn; now rewrite Hg, Hb|].
        split; [assumption|]. cbn [length]. lia.
      * destruct H as [Hall ->]. split; [cbn; now rewrite Hg, Hall|].
        cbn [length]. lia.
Qed.

(** X4.  When the loop ends normally, its result is justified by the
    verifier: with [password_found = True] the candidate at position
    [attempts] (counted from 1) was accepted and every earlier one was
    rejected; with [password_found = False] every candidate was rejected and
    [attempts] is their number.  In both cases [attempts] is at most the
    number of candidates. *)
Theorem attack_result_sound :
  forall (password_candidates : list str) (out out' : stdout)
         (password_found : bool) (attempts : Z),
    attack_loop decrypt' password_candidates 0 out
    = (out', Return (password_found, attempts)) ->
    (attempts <= Z.of_nat (length password_candidates))%Z /\
    (password_found = true ->
     exists before password_guess after,
       password_candidates = before ++ password_guess :: after /\
       forallb rejected' before = true /\
       accepted' password_guess = true /\
       attempts = (Z.of_nat (length before) + 1)%Z) /\
    (password_found = false ->
     forallb rejected' password_candidates = true /\
     attempts = Z.of_nat (length password_candidates)).
Proof.
  intros password_candidates out out' password_found attempts H.
  apply attack_loop_result_sound in H. destruct password_found.
  - destruct H as (before & g & after & -> & Hb & Ha & ->).
    split; [rewrite length_app; cbn [length]; lia|].
    split; [|discriminate]. intros _.
    exists before, g, after. repeat split; try assumption; lia.
  - destruct H as [Hall ->]. split; [lia|]. split; [discriminate|].
    intros _. split; [assumption|lia].
Qed.

(** X5.  The loop does not handle exceptions.  If the candidates before
    some candidate are rejected and that candidate cannot be encoded (a lone
    surrogate), the loop stops with [UnicodeEncodeError] and writes nothing
    for it: the exception comes from the progress [print] when the attempt
    is a multiple of 5000 and from [encode] otherwise.  If the verifier
    raises on an encodable candidate (for instance [UnicodeDecodeError] on a
    plaintext that is not UTF-8, after a successful decryption), the loop
    stops with that exception, after the progress line, if one is due, and
    what the verifier printed.  The candidates after it are not tested and
    no result is reported. *)
Theorem attack_stops_on_exception :
  forall (before after : list str) (password_guess : str) (out : stdout),
    forallb rejected' before = true ->
    (utf8_encode password_guess = None ->
     attack_loop decrypt' (before ++ password_guess :: after) 0 out
     = (out ++ progress_events before 0, Raise UnicodeEncodeError))
    /\
    (forall passwd_bytes e,
        utf8_encode password_guess = Some passwd_bytes ->
        verdict' passwd_bytes = Raise e ->
        attack_loop decrypt' (before ++ password_guess :: after) 0 out
        = (out ++ progress_events (before ++ [password_guess]) 0
               ++ console_output' passwd_bytes,
           Raise e)).
Proof.
  intros before after g out Hb.
  rewrite (attack_loop_rejected_prefix _ _ _ _ _ _ _ _ _ _ Hb), attack_loop_step.
  rewrite progress_events_app. split.
  - now intros ->.
  - intros b e -> ->. now rewrite <- !app_assoc.
Qed.

(** X6.  The driver passes [decrypt] the UTF-8 encoding of a string, so
    the password line never fails to decode and shows the candidate itself:
    after a successful decryption the call prints the banner and the
    candidate, then either the plaintext and the closing rule, returning
    [True], or nothing more, raising [UnicodeDecodeError], according to
    whether the plaintext is valid UTF-8. *)
Theorem decrypt_prints_the_candidate :
  forall (password_guess : str) (passwd_bytes plaintext : bytes) (out : stdout),
    utf8_encode password_guess = Some passwd_bytes ->
    decryption' passwd_bytes = Return plaintext ->
    (forall text,
        utf8_decode plaintext = Some text ->
        decrypt' passwd_bytes out =
        (out ++ banner ++ [Print (lit " -> Password: " ++ password_guess);
                           Print (lit " -> Plaintext: " ++ text);
                           Print (str_mul (lit "=") 50)],
         Return true))
    /\
    (utf8_decode plaintext = None ->
     decrypt' passwd_bytes out =
     (out ++ banner ++ [Print (lit " -> Password: " ++ password_guess)],
      Raise UnicodeDecodeError)).
Proof.
  intros g b plaintext out He Hd.
  apply utf8_decode_encode in He.
  rewrite decrypt_run. unfold verdict, console_output. rewrite Hd, He.
  split.
  - now intros text ->.
  - now intros ->.
Qed.

End Driver_outcomes.

Lemma attack_result_sound_witness :
  attack_loop (StubCrypto.decrypt [] StubCrypto.short_target)
              [lit "x"; lit "!A1"; lit "y"] 0 []
  = (fst (attack_loop (StubCrypto.decrypt [] StubCrypto.short_target)
                      [lit "x"; lit "!A1"; lit "y"] 0 []),
     Return (true, 2%Z)) /\
  exists before password_guess after,
    [lit "x"; lit "!A1"; lit "y"] = before ++ password_guess :: after /\
    forallb (rejected StubCrypto.PBKDF2HMAC_derive StubCrypto.urlsafe_b64encode
                      StubCrypto.Fernet StubCrypto.Fernet_decrypt []
                      StubCrypto.short_target) before = true /\
    accepted StubCrypto.PBKDF2HMAC_derive StubCrypto.urlsafe_b64encode
             StubCrypto.Fernet StubCrypto.Fernet_decrypt []
             StubCrypto.short_target password_guess = true /\
    2%Z = (Z.of_nat (length before) + 1)%Z.
Proof.
  assert (H : attack_loop (StubCrypto.decrypt [] StubCrypto.short_target)
                          [lit "x"; lit "!A1"; lit "y"] 0 []
              = (fst (attack_loop (StubCrypto.decrypt [] StubCrypto.short_target)
                                  [lit "x"; lit "!A1"; lit "y"] 0 []),
                 Return (true, 2%Z)))
    by (vm_compute; reflexivity).
  split; [exact H|].
  exact (proj1 (proj2 (attack_result_sound
                         StubCrypto.PBKDF2HMAC_derive StubCrypto.urlsafe_b64encode
                         StubCrypto.Fernet StubCrypto.Fernet_decrypt []
                         StubCrypto.short_target _ _ H))
               eq_refl).
Defined.

Lemma attack_stops_on_exception_witness :
  forallb (rejected StubCrypto.PBKDF2HMAC_derive StubCrypto.urlsafe_b64encode
                    StubCrypto.Fernet StubCrypto.Fernet_decrypt []
                    StubCrypto.binary_target) [lit "x"] = true /\
  (utf8_encode [55296%N] = None /\
   attack_loop (StubCrypto.decrypt [] StubCrypto.binary_target)
               ([lit "x"] ++ [55296%N] :: [lit "y"]) 0 []
   = ([] ++ progress_events [lit "x"] 0, Raise UnicodeEncodeError)) /\
  utf8_encode (lit "Ab!1") = Some StubCrypto.right_password /\
  verdict StubCrypto.PBKDF2HMAC_derive StubCrypto.urlsafe_b64encode
          StubCrypto.Fernet StubCrypto.Fernet_decrypt []
          StubCrypto.binary_target StubCrypto.right_password
  = Raise UnicodeDecodeError /\
  attack_loop (StubCrypto.decrypt [] StubCrypto.binary_target)
              ([lit "x"] ++ lit "Ab!1" :: [lit "y"]) 0 []
  = ([] ++ progress_events ([lit "x"] ++ [lit "Ab!1"]) 0
        ++ console_output StubCrypto.PBKDF2HMAC_derive StubCrypto.urlsafe_b64encode
                          StubCrypto.Fernet StubCrypto.Fernet_decrypt []
                          StubCrypto.binary_target StubCrypto.right_password,
     Raise UnicodeDecodeError).
Proof.
  assert (Hb : forallb (rejected StubCrypto.PBKDF2HMAC_derive
                                 StubCrypto.urlsafe_b64encode
                                 StubCrypto.Fernet StubCrypto.Fernet_decrypt []
                                 StubCrypto.binary_target) [lit "x"] = true)
    by reflexivity.
  assert (Hs : utf8_encode [55296%N] = None) by reflexivity.
  assert (He : utf8_encode (lit "Ab!1") = Some StubCrypto.right_password)
    by reflexivity.
  assert (Hv : verdict StubCrypto.PBKDF2HMAC_derive StubCrypto.urlsafe_b64encode
                       StubCrypto.Fernet StubCrypto.Fernet_decrypt []
                       StubCrypto.binary_target StubCrypto.right_password
               = Raise UnicodeDecodeError) by reflexivity.
  split; [exact Hb|]. split.
  - split; [exact Hs|].
    exact (proj1 (attack_stops_on_exception
                    StubCrypto.PBKDF2HMAC_derive StubCrypto.urlsafe_b64encode
                    StubCrypto.Fernet StubCrypto.Fernet_decrypt []
                    StubCrypto.binary_target [lit "x"] [lit "y"] [55296%N] [] Hb)
                 Hs).
  - split; [exact He|]. split; [exact Hv|].
    exact (proj2 (attack_stops_on_exception
                    StubCrypto.PBKDF2HMAC_derive StubCrypto.urlsafe_b64encode
                    StubCrypto.Fernet StubCrypto.Fernet_decrypt []
                    StubCrypto.binary_target [lit "x"] [lit "y"] (lit "Ab!1") [] Hb)
                 StubCrypto.right_password UnicodeDecodeError He Hv).
Defined.

Lemma decrypt_prints_the_candidate_witness :
  utf8_encode (lit "Ab!1") = Some StubCrypto.right_password /\
  authenticated_decryption StubCrypto.PBKDF2HMAC_derive StubCrypto.urlsafe_b64encode
                           StubCrypto.Fernet StubCrypto.Fernet_decrypt []
                           StubCrypto.text_target StubCrypto.right_password
  = Return (StubCrypto.ascii_bytes "hi") /\
  utf8_decode (StubCrypto.ascii_bytes "hi") = Some (lit "hi") /\
  StubCrypto.decrypt [] StubCrypto.text_target StubCrypto.right_password [] =
  ([] ++ banner ++ [Print (lit " -> Password: " ++ lit "Ab!1");
                    Print (lit " -> Plaintext: " ++ lit "hi");
                    Print (str_mul (lit "=") 50)],
   Return true).
Proof.
  assert (He : utf8_encode (lit "Ab!1") = Some StubCrypto.right_password)
    by reflexivity.
  assert (Hd : authenticated_decryption
                 StubCrypto.PBKDF2HMAC_derive StubCrypto.urlsafe_b64encode
                 StubCrypto.Fernet StubCrypto.Fernet_decrypt []
                 StubCrypto.text_target StubCrypto.right_password
               = Return (StubCrypto.ascii_bytes "hi")) by reflexivity.
  assert (Ht : utf8_decode (StubCrypto.ascii_bytes "hi") = Some (lit "hi"))
    by reflexivity.
  split; [exact He|]. split; [exact Hd|]. split; [exact Ht|].
  exact (proj1 (decrypt_prints_the_candidate
                  StubCrypto.PBKDF2HMAC_derive StubCrypto.urlsafe_b64encode
                  StubCrypto.Fernet StubCrypto.Fernet_decrypt []
                  StubCrypto.text_target (lit "Ab!1") [] He Hd)
               (lit "hi") Ht).
Defined.

(** ** The progress lines of the driver *)

Lemma progress_events_last (before : list str) (password_guess : str) :
  progress_events (before ++ [password_guess]) 0 =
  progress_events before 0
  ++ (if ((Z.of_nat (length before) + 1) mod 5000 =? 0)%Z
      then [PrintProgress (Z.of_nat (length before) + 1) password_guess]
      else []).
Proof.
  rewrite progress_events_app. cbn [progress_events].
  rewrite Z.add_0_l, app_nil_r. reflexivity.
Qed.

Lemma progress_events_closed_form (password_candidates : list str) :
  progress_events password_candidates 0 =
  map (fun m => PrintProgress (5000 * Z.of_nat m)
                              (nth (Z.to_nat (5000 * Z.of_nat m - 1))
                                   password_candidates []))
      (seq 1 (Z.to_nat (Z.of_nat (length password_candidates) / 5000))).
Proof.
  induction password_candidates as [|g before IH] using rev_ind; [reflexivity|].
  rewrite progress_events_last, IH, length_app. cbn [length].
  set (n := length before).
  assert (Hold : forall m, In m (seq 1 (Z.to_nat (Z.of_nat n / 5000))) ->
                 nth (Z.to_nat (5000 * Z.of_nat m - 1)) (before ++ [g]) []
                 = nth (Z.to_nat (5000 * Z.of_nat m - 1)) before []).
  { intros m Hm. apply in_seq in Hm. apply app_nth1. fold n.
    zify. Z.to_euclidean_division_equations. lia. }
  destruct ((Z.of_nat n + 1) mod 5000 =? 0)%Z eqn:E.
  - apply Z.eqb_eq in E.
    replace (Z.to_nat (Z.of_nat (n + 1) / 5000))
      with (Z.to_nat (Z.of_nat n / 5000) + 1)
      by (zify; Z.to_euclidean_division_equations; lia).
    rewrite seq_app, map_app. f_equal.
    + apply map_ext_in. intros m Hm. now rewrite Hold.
    + cbn [seq map]. f_equal.
      replace (5000 * Z.of_nat (1 + Z.to_nat (Z.of_nat n / 5000)))%Z
        with (Z.of_nat n + 1)%Z
        by (zify; Z.to_euclidean_division_equations; lia).
      f_equal. replace (Z.to_nat (Z.of_nat n + 1 - 1)) with n by lia.
      unfold n. now rewrite nth_middle.
  - apply Z.eqb_neq in E. rewrite app_nil_r.
    replace (Z.to_nat (Z.of_nat (n + 1) / 5000))
      with (Z.to_nat (Z.of_nat n / 5000))
      by (zify; Z.to_euclidean_division_equations; lia).
    apply map_ext_in. intros m Hm. now rewrite Hold.
Qed.

(** X7.  A run in which every candidate is rejected prints one progress
    line after each 5000 attempts and nothing else: for [n] candidates
    there are [n // 5000] lines, the [m]-th showing [5000 * m] attempts and
    the candidate tested last, the one at index [5000 * m - 1]. *)
Theorem exhausted_run_progress_lines :
  forall (fernet : Type)
         (PBKDF2HMAC_derive : Z -> bytes -> Z -> bytes -> outcome bytes)
         (urlsafe_b64encode : bytes -> bytes)
         (Fernet : bytes -> outcome fernet)
         (Fernet_decrypt : fernet -> bytes -> outcome bytes)
         (salt ciphertext : bytes)
         (password_candidates : list str) (out : stdout),
    forallb (rejected PBKDF2HMAC_derive urlsafe_b64encode Fernet Fernet_decrypt
                      salt ciphertext) password_candidates = true ->
    attack_loop (decrypt PBKDF2HMAC_derive urlsafe_b64encode Fernet Fernet_decrypt
                         salt ciphertext) password_candidates 0 out
    = (out ++ map (fun m => PrintProgress (5000 * Z.of_nat m)
                                          (nth (Z.to_nat (5000 * Z.of_nat m - 1))
                                               password_candidates []))
                  (seq 1 (Z.to_nat (Z.of_nat (length password_candidates) / 5000))),
       Return (false, Z.of_nat (length password_candidates))).
Proof.
  intros fernet PBKDF2HMAC_derive urlsafe_b64encode Fernet Fernet_decrypt
         salt ciphertext password_candidates out Hall.
  rewrite (attack_loop_exhausted _ _ _ _ _ _ _ 0 out Hall).
  now rewrite progress_events_closed_form, Z.add_0_l.
Qed.

Lemma exhausted_run_progress_lines_witness :
  forallb (rejected StubCrypto.PBKDF2HMAC_derive StubCrypto.urlsafe_b64encode
                    StubCrypto.Fernet StubCrypto.Fernet_decrypt
                    StubCrypto.closed_salt StubCrypto.closed_target)
          (Cracker.password_candidates "FULL") = true /\
  attack_loop (decrypt StubCrypto.PBKDF2HMAC_derive StubCrypto.urlsafe_b64encode
                       StubCrypto.Fernet StubCrypto.Fernet_decrypt
                       StubCrypto.closed_salt StubCrypto.closed_target)
              (Cracker.password_candidates "FULL") 0 []
  = ([] ++ map (fun m => PrintProgress (5000 * Z.of_nat m)
                                       (nth (Z.to_nat (5000 * Z.of_nat m - 1))
                                            (Cracker.password_candidates "FULL") []))
               (seq 1 (Z.to_nat (Z.of_nat (length (Cracker.password_candidates "FULL"))
                                 / 5000))),
     Return (false, Z.of_nat (length (Cracker.password_candidates "FULL")))).
Proof.
  split; [exact closed_target_rejects_full_mode|].
  exact (exhausted_run_progress_lines
           StubCrypto.PBKDF2HMAC_derive StubCrypto.urlsafe_b64encode
           StubCrypto.Fernet StubCrypto.Fernet_decrypt
           StubCrypto.closed_salt StubCrypto.closed_target
           (Cracker.password_candidates "FULL") []
           closed_target_rejects_full_mode).
Defined.

(** ** The generator on dictionaries of lowercase ASCII words *)

Lemma unique_split (P : char -> bool) (a a' b b' : str) (d d' : char) :
  a ++ d :: b = a' ++ d' :: b' ->
  P d = true -> P d' = true ->
  (forall x, In x a -> P x = false) -> (forall x, In x a' -> P x = false) ->
  a = a' /\ d = d' /\ b = b'.
Proof.
  revert a'. induction a as [|x a IH]; intros [|y a'] E Hd Hd' Ha Ha'.
  - inversion E. auto.
  - inversion E; subst. rewrite (Ha' y (or_introl eq_refl)) in Hd. discriminate.
  - inversion E; subst. rewrite (Ha d' (or_introl eq_refl)) in Hd'. discriminate.
  - inversion E; subst.
    destruct (IH a' H1 Hd Hd') as (-> & -> & ->).
    + intros z Hz. apply Ha. now right.
    + intros z Hz. apply Ha'. now right.
    + auto.
Qed.

Lemma insert_unique (P : char -> bool) (s s' : str) (k k' : nat) (d d' : char) :
  k <= length s -> k' <= length s' ->
  P d = true -> P d' = true ->
  (forall x, In x s -> P x = false) -> (forall x, In x s' -> P x = false) ->
  firstn k s ++ [d] ++ skipn k s = firstn k' s' ++ [d'] ++ skipn k' s' ->
  s = s' /\ k = k' /\ d = d'.
Proof.
  intros Hk Hk' Hd Hd' Hs Hs' E. cbn [app] in E.
  assert (Hin : forall (t : str) n x, In x (firstn n t) -> In x t).
  { intros t n x Hx. rewrite <- (firstn_skipn n t). apply in_or_app. now left. }
  destruct (@unique_split P _ _ _ _ _ _ E Hd Hd') as (Ha & Hdd & Hb).
  - intros x Hx. apply Hs. now apply Hin in Hx.
  - intros x Hx. apply Hs'. now apply Hin in Hx.
  - split; [|split; [|assumption]].
    + rewrite <- (firstn_skipn k s), <- (firstn_skipn k' s'). now rewrite Ha, Hb.
    + apply (f_equal (@length char)) in Ha. rewrite !length_firstn in Ha. lia.
Qed.

Lemma lowercase_facts (c : char) :
  (97 <= c <= 122)%N ->
  str_upper c = [(c - 32)%N] /\
  member Cracker.symbols c = false /\ member Cracker.numbers c = false /\
  is_ascii_upper c = false /\
  member Cracker.symbols (c - 32)%N = false /\
  member Cracker.numbers (c - 32)%N = false /\
  is_ascii_upper (c - 32)%N = true.
Proof.
  intros Hc.
  assert (Hall : forallb (fun c =>
                   match str_upper c with
                   | [u] => (u =? c - 32)%N
                   | _ => false
                   end
                   && negb (member Cracker.symbols c)
                   && negb (member Cracker.numbers c)
                   && negb (is_ascii_upper c)
                   && negb (member Cracker.symbols (c - 32)%N)
                   && negb (member Cracker.numbers (c - 32)%N)
                   && is_ascii_upper (c - 32)%N)
                 (map N.of_nat (seq 97 26)) = true) by reflexivity.
  rewrite forallb_forall in Hall.
  assert (Hin : In c (map N.of_nat (seq 97 26))).
  { apply in_map_iff. exists (N.to_nat c). split; [apply N2Nat.id|].
    apply in_seq. lia. }
  specialize (Hall c Hin).
  repeat (apply andb_prop in Hall; destruct Hall as [Hall ?]).
  destruct (str_upper c) as [|u [|? ?]]; try discriminate.
  apply N.eqb_eq in Hall. subst u.
  repeat split; try (now apply negb_true_iff); assumption.
Qed.

Lemma lowercase_word_letters (word : str) (c : char) :
  ascii_lowercase_word word = true -> In c word -> (97 <= c <= 122)%N.
Proof.
  unfold ascii_lowercase_word. rewrite forallb_forall. intros H Hc.
  specialize (H c Hc). apply andb_prop in H. destruct H as [H1 H2].
  apply N.leb_le in H1, H2. lia.
Qed.

Lemma cracker_symbol_facts (symbol : str) :
  In symbol Cracker.symbols ->
  exists x, symbol = [x] /\ member Cracker.symbols x = true /\
            member Cracker.numbers x = false /\ is_ascii_upper x = false.
Proof.
  intros H. cbn in H.
  repeat (destruct H as [<-|H]; [eexists; repeat split; reflexivity|]).
  contradiction.
Qed.

Lemma cracker_number_facts (number : str) :
  In number Cracker.numbers ->
  exists x, number = [x] /\ member Cracker.numbers x = true /\
            member Cracker.symbols x = false /\ is_ascii_upper x = false.
Proof.
  intros H. cbn in H.
  repeat (destruct H as [<-|H]; [eexists; repeat split; reflexivity|]).
  contradiction.
Qed.

Lemma cracker_symbols_NoDup : NoDup Cracker.symbols.
Proof.
  unfold Cracker.symbols.
  repeat (constructor;
          [intros H; vm_compute in H;
           repeat (destruct H as [H|H]; [discriminate H|]); exact H|]).
  constructor.
Qed.

Lemma cracker_numbers_NoDup : NoDup Cracker.numbers.
Proof.
  change Cracker.numbers with digits_0_to_9. unfold digits_0_to_9.
  repeat (constructor;
          [intros H; vm_compute in H;
           repeat (destruct H as [H|H]; [discriminate H|]); exact H|]).
  constructor.
Qed.

(** A yielded string determines the word, the position, the symbol and the
    digit and their positions. *)
Lemma candidate_origin_unique
      (w w' : str) (i i' : nat) (c c' : char) (symbol symbol' : str)
      (j j' : nat) (number number' : str) (k k' : nat) :
  ascii_lowercase_word w = true -> ascii_lowercase_word w' = true ->
  nth_error w i = Some c -> nth_error w' i' = Some c' ->
  In symbol Cracker.symbols -> In symbol' Cracker.symbols ->
  In number Cracker.numbers -> In number' Cracker.numbers ->
  j <= length (firstn i w ++ str_upper c ++ skipn (i + 1) w) ->
  j' <= length (firstn i' w' ++ str_upper c' ++ skipn (i' + 1) w') ->
  k <= length (firstn j (firstn i w ++ str_upper c ++ skipn (i + 1) w)
               ++ symbol
               ++ skipn j (firstn i w ++ str_upper c ++ skipn (i + 1) w)) ->
  k' <= length (firstn j' (firstn i' w' ++ str_upper c' ++ skipn (i' + 1) w')
                ++ symbol'
                ++ skipn j' (firstn i' w' ++ str_upper c' ++ skipn (i' + 1) w')) ->
  firstn k (firstn j (firstn i w ++ str_upper c ++ skipn (i + 1) w)
            ++ symbol
            ++ skipn j (firstn i w ++ str_upper c ++ skipn (i + 1) w))
  ++ number
  ++ skipn k (firstn j (firstn i w ++ str_upper c ++ skipn (i + 1) w)
              ++ symbol
              ++ skipn j (firstn i w ++ str_upper c ++ skipn (i + 1) w))
  = firstn k' (firstn j' (firstn i' w' ++ str_upper c' ++ skipn (i' + 1) w')
               ++ symbol'
               ++ skipn j' (firstn i' w' ++ str_upper c' ++ skipn (i' + 1) w'))
    ++ number'
    ++ skipn k' (firstn j' (firstn i' w' ++ str_upper c' ++ skipn (i' + 1) w')
                 ++ symbol'
                 ++ skipn j' (firstn i' w' ++ str_upper c' ++ skipn (i' + 1) w')) ->
  w = w' /\ i = i' /\ symbol = symbol' /\ j = j' /\ number = number' /\ k = k'.
Proof.
  intros Hw Hw' Hc Hc' Hs Hs' Hn Hn'.
  pose proof (@lowercase_word_letters w c Hw (nth_error_In _ _ Hc)) as Hcr.
  pose proof (@lowercase_word_letters w' c' Hw' (nth_error_In _ _ Hc')) as Hcr'.
  destruct (@lowercase_facts c Hcr) as (-> & _ & _ & _ & Hus & Hun & Huu).
  destruct (@lowercase_facts c' Hcr') as (-> & _ & _ & _ & Hus' & Hun' & Huu').
  destruct (@cracker_symbol_facts _ Hs) as (sx & -> & Hss & Hsn & Hsu).
  destruct (@cracker_symbol_facts _ Hs') as (sx' & -> & Hss' & Hsn' & Hsu').
  destruct (@cracker_number_facts _ Hn) as (dx & -> & Hdn & Hds & Hdu).
  destruct (@cracker_number_facts _ Hn') as (dx' & -> & Hdn' & Hds' & Hdu').
  assert (Hletter : forall (P : char -> bool) (v : str),
             ascii_lowercase_word v = true ->
             (forall x, (97 <= x <= 122)%N -> P x = false) ->
             forall x, In x v -> P x = false).
  { intros P v Hv HP x Hx. apply HP. now apply (@lowercase_word_letters v). }
  set (cw := firstn i w ++ [(c - 32)%N] ++ skipn (i + 1) w).
  set (cw' := firstn i' w' ++ [(c' - 32)%N] ++ skipn (i' + 1) w').
  assert (Hcw : forall (P : char -> bool),
             (forall x, (97 <= x <= 122)%N -> P x = false) ->
             P (c - 32)%N = false -> forall x, In x cw -> P x = false).
  { intros P HP Hu x Hx. apply in_replace_middle in Hx.
    destruct Hx as [Hx|[<-|[]]]; [|assumption].
    now apply (Hletter P w). }
  assert (Hcw' : forall (P : char -> bool),
             (forall x, (97 <= x <= 122)%N -> P x = false) ->
             P (c' - 32)%N = false -> forall x, In x cw' -> P x = false).
  { intros P HP Hu x Hx. apply in_replace_middle in Hx.
    destruct Hx as [Hx|[<-|[]]]; [|assumption].
    now apply (Hletter P w'). }
  intros Hj Hj' Hk Hk' E.
  apply (@insert_unique (member Cracker.numbers)) in E; try assumption.
  2:{ intros x Hx. apply in_insert in Hx. destruct Hx as [Hx|[<-|[]]]; [|assumption].
      apply (Hcw (member Cracker.numbers)); try assumption.
      intros y Hy. now destruct (@lowercase_facts y Hy) as (_ & _ & ? & _). }
  2:{ intros x Hx. apply in_insert in Hx. destruct Hx as [Hx|[<-|[]]]; [|assumption].
      apply (Hcw' (member Cracker.numbers)); try assumption.
      intros y Hy. now destruct (@lowercase_facts y Hy) as (_ & _ & ? & _). }
  destruct E as (E & -> & ->).
  apply (@insert_unique (member Cracker.symbols)) in E; try assumption.
  2:{ apply (Hcw (member Cracker.symbols)); try assumption.
      intros y Hy. now destruct (@lowercase_facts y Hy) as (_ & ? & _). }
  2:{ apply (Hcw' (member Cracker.symbols)); try assumption.
      intros y Hy. now destruct (@lowercase_facts y Hy) as (_ & ? & _). }
  destruct E as (E & -> & ->).
  unfold cw, cw' in E. cbn [app] in E.
  apply (@unique_split is_ascii_upper) in E; try assumption.
  2:{ intros x Hx. apply (Hletter is_ascii_upper w Hw).
      - intros y Hy. now destruct (@lowercase_facts y Hy) as (_ & _ & _ & ? & _).
      - rewrite <- (firstn_skipn i w). apply in_or_app. now left. }
  2:{ intros x Hx. apply (Hletter is_ascii_upper w' Hw').
      - intros y Hy. now destruct (@lowercase_facts y Hy) as (_ & _ & _ & ? & _).
      - rewrite <- (firstn_skipn i' w'). apply in_or_app. now left. }
  destruct E as (Ea & Eu & Eb).
  assert (c = c') by lia. subst c'.
  assert (Hi : i = i').
  { apply (f_equal (@length char)) in Ea. rewrite !length_firstn in Ea.
    assert (i < length w) by (apply nth_error_Some; congruence).
    assert (i' < length w') by (apply nth_error_Some; congruence). lia. }
  subst i'.
  assert (w = w').
  { rewrite (nth_error_middle w i Hc), (nth_error_middle w' i Hc').
    now rewrite Ea, Eb. }
  repeat split; auto.
Qed.

Lemma NoDup_for_each (A B : Type) (xs : list A) (body : A -> list B) :
  NoDup xs ->
  (forall x, In x xs -> NoDup (body x)) ->
  (forall x y z, In x xs -> In y xs -> In z (body x) -> In z (body y) -> x = y) ->
  NoDup (for_each xs body).
Proof.
  unfold for_each. induction 1 as [|x xs Hx Hxs IH]; intros Hbody Hsep.
  - constructor.
  - cbn [flat_map]. apply NoDup_app.
    + apply Hbody. now left.
    + apply IH.
      * intros y Hy. apply Hbody. now right.
      * intros y y' z Hy Hy'. apply Hsep; now right.
    + intros z Hz Hz'. apply in_flat_map in Hz'. destruct Hz' as (y & Hy & Hz').
      assert (x = y) by (apply (Hsep x y z); auto; [now left|now right]).
      subst y. contradiction.
Qed.

Ltac unroll_loops H :=
  unfold for_each in H;
  repeat first
    [ progress cbv beta zeta in H
    | apply in_flat_map in H;
      let x := fresh "x" in
      let Hx := fresh "Hx" in
      destruct H as (x & Hx & H)
    | match type of H with
      | In _ (match nth_error ?w ?i with _ => _ end) =>
        let c := fresh "c" in
        let Hc := fresh "Hc" in
        destruct (nth_error w i) as [c|] eqn:Hc; [|contradiction]
      end
    | match type of H with
      | In _ [_] => destruct H as [H|[]]
      end ].

Ltac same_origin H1 H2 :=
  unroll_loops H1; unroll_loops H2; rewrite <- H2 in H1;
  apply candidate_origin_unique in H1;
  [ decompose [and] H1; congruence
  | try assumption;
    try match goal with
        | Hr : In ?j (range _) |- ?j <= _ =>
          pose proof (proj1 (in_range_lt _ _) Hr); lia
        end .. ].

Lemma password_generator_NoDup (dictionary : list str) :
  NoDup dictionary ->
  forallb ascii_lowercase_word dictionary = true ->
  NoDup (password_generator str_upper Cracker.symbols Cracker.numbers dictionary).
Proof.
  intros Hnd Hlow. rewrite forallb_forall in Hlow.
  unfold password_generator.
  apply NoDup_for_each; [assumption| |].
  - intros w Hw. pose proof (Hlow w Hw) as Hww.
    apply NoDup_for_each; [apply seq_NoDup| |].
    + intros i Hi. destruct (nth_error w i) as [c|] eqn:Hc; [|constructor].
      cbv zeta.
      apply NoDup_for_each; [apply cracker_symbols_NoDup| |].
      * intros symbol Hs.
        apply NoDup_for_each; [apply seq_NoDup| |].
        -- intros j Hj.
           apply NoDup_for_each; [apply cracker_numbers_NoDup| |].
           ++ intros number Hn.
              apply NoDup_for_each; [apply seq_NoDup| |].
              ** intros k Hk. constructor; [intros []|constructor].
              ** intros k k' z Hk Hk' Hz Hz'. same_origin Hz Hz'.
           ++ intros number number' z Hn Hn' Hz Hz'. same_origin Hz Hz'.
        -- intros j j' z Hj Hj' Hz Hz'. same_origin Hz Hz'.
      * intros symbol symbol' z Hs Hs' Hz Hz'. same_origin Hz Hz'.
    + intros i i' z Hi Hi' Hz Hz'. same_origin Hz Hz'.
  - intros w w' z Hw Hw' Hz Hz'.
    pose proof (Hlow w Hw). pose proof (Hlow w' Hw').
    same_origin Hz Hz'.
Qed.

Lemma one_uppercase_letter (dictionary : list str) (p : str) :
  forallb ascii_lowercase_word dictionary = true ->
  In p (password_generator str_upper Cracker.symbols Cracker.numbers dictionary) ->
  length (filter is_ascii_upper p) = 1.
Proof.
  intros Hlow Hp. rewrite forallb_forall in Hlow.
  apply in_password_generator in Hp.
  destruct Hp as (w & i & c & symbol & j & number & k & Hw & Hc & Hs & Hn & H).
  cbv zeta in H. destruct H as (_ & _ & ->).
  pose proof (@lowercase_word_letters w c (Hlow w Hw) (nth_error_In _ _ Hc)) as Hcr.
  destruct (@lowercase_facts c Hcr) as (-> & _ & _ & Hcu & _ & _ & Huu).
  destruct (@cracker_symbol_facts _ Hs) as (sx & -> & _ & _ & Hsu).
  destruct (@cracker_number_facts _ Hn) as (dx & -> & _ & _ & Hdu).
  rewrite !length_filter_insert.
  pose proof (length_filter_replace_middle is_ascii_upper w [(c - 32)%N] i Hc) as L.
  assert (Hzero : length (filter is_ascii_upper w) = 0).
  { apply length_filter_none. intros x Hx.
    pose proof (@lowercase_word_letters w x (Hlow w Hw) Hx) as Hxr.
    now destruct (@lowercase_facts x Hxr) as (_ & _ & _ & ? & _). }
  cbn [filter] in *. rewrite Hcu, Huu in L. rewrite Hsu, Hdu.
  cbn [length] in *. lia.
Qed.

(** X8.  From a dictionary without repeated words, written with the
    letters a to z, the generator of the cracker (its 10 symbols, its 10
    digits) yields no string twice: every attempt of the driver tests a
    different password. *)
Theorem generator_yields_no_duplicates :
  forall dictionary : list str,
    NoDup dictionary ->
    forallb ascii_lowercase_word dictionary = true ->
    NoDup (password_generator str_upper Cracker.symbols Cracker.numbers dictionary).
Proof.
  intros dictionary Hnd Hlow. now apply password_generator_NoDup.
Qed.

Lemma generator_yields_no_duplicates_witness :
  NoDup [lit "ab"; lit "ba"] /\
  forallb ascii_lowercase_word [lit "ab"; lit "ba"] = true /\
  NoDup (password_generator str_upper Cracker.symbols Cracker.numbers
                            [lit "ab"; lit "ba"]).
Proof.
  assert (Hnd : NoDup [lit "ab"; lit "ba"]).
  { constructor.
    - intros [H|[]]. discriminate H.
    - constructor; [intros []|constructor]. }
  split; [exact Hnd|]. split; [reflexivity|].
  exact (@generator_yields_no_duplicates [lit "ab"; lit "ba"] Hnd eq_refl).
Defined.

(** X9.  Every string the cracker's generator yields from a dictionary
    written with the letters a to z contains exactly one uppercase letter
    A to Z.  In particular no candidate encodes to the reference password
    [b"giovanni0@"] of the test-case script, which has none. *)
Theorem candidates_have_one_uppercase_letter :
  forall (dictionary : list str) (p : str),
    forallb ascii_lowercase_word dictionary = true ->
    In p (password_generator str_upper Cracker.symbols Cracker.numbers dictionary) ->
    length (filter is_ascii_upper p) = 1 /\
    utf8_encode p <> Some TestCase.password_da_usare.
Proof.
  intros dictionary p Hlow Hp.
  pose proof (one_uppercase_letter dictionary p Hlow Hp) as Hone.
  split; [assumption|].
  intros He. apply utf8_decode_encode in He.
  assert (Hd : utf8_decode TestCase.password_da_usare = Some (lit "giovanni0@"))
    by reflexivity.
  rewrite Hd in He. inversion He; subst p. discriminate Hone.
Qed.

Lemma candidates_have_one_uppercase_letter_witness :
  forallb ascii_lowercase_word [lit "giovanni"] = true /\
  In (lit "0!Giovanni")
     (password_generator str_upper Cracker.symbols Cracker.numbers [lit "giovanni"]) /\
  length (filter is_ascii_upper (lit "0!Giovanni")) = 1 /\
  utf8_encode (lit "0!Giovanni") <> Some TestCase.password_da_usare.
Proof.
  assert (Hin : In (lit "0!Giovanni")
                   (password_generator str_upper Cracker.symbols Cracker.numbers
                                       [lit "giovanni"])).
  { apply (nth_error_In _ 0). vm_compute. reflexivity. }
  split; [reflexivity|]. split; [exact Hin|].
  exact (@candidates_have_one_uppercase_letter [lit "giovanni"] (lit "0!Giovanni")
           eq_refl Hin).
Defined.

(** ** The printed form of bytes and the literal read back *)

Lemma string_app_assoc (x y z : string) :
  ((x ++ y) ++ z)%string = (x ++ (y ++ z))%string.
Proof. induction x as [|c x IH]; cbn; [reflexivity|now rewrite IH]. Qed.

Lemma literal_body_repr_byte (quote : ascii) (b : byte) (rest : string) :
  quote = squote \/ quote = dquote ->
  literal_body quote (repr_byte quote b ++ rest) =
  match literal_body quote rest with
  | Some (body, after) => Some ((repr_byte quote b ++ body)%string, after)
  | None => None
  end.
Proof.
  intros [->| ->]; destruct b; cbn;
    destruct (literal_body _ rest) as [[body after]|]; reflexivity.
Qed.

Lemma bytes_literal_repr_byte (quote : ascii) (b : byte) (rest : string) :
  quote = squote \/ quote = dquote ->
  bytes_literal (repr_byte quote b ++ rest) = option_map (cons b) (bytes_literal rest).
Proof.
  intros [->| ->]; destruct b; reflexivity.
Qed.

Lemma literal_body_repr (quote : ascii) (bs : bytes) (after : string) :
  quote = squote \/ quote = dquote ->
  literal_body quote (repr_body quote bs ++ String quote after)
  = Some (repr_body quote bs, after).
Proof.
  intros Hq. induction bs as [|b bs IH].
  - cbn [repr_body append literal_body]. now rewrite Ascii.eqb_refl.
  - cbn [repr_body]. rewrite string_app_assoc.
    now rewrite (literal_body_repr_byte b _ Hq), IH.
Qed.

Lemma bytes_literal_repr (quote : ascii) (bs : bytes) :
  quote = squote \/ quote = dquote ->
  bytes_literal (repr_body quote bs) = Some bs.
Proof.
  intros Hq. induction bs as [|b bs IH]; [reflexivity|].
  cbn [repr_body]. now rewrite (bytes_literal_repr_byte b _ Hq), IH.
Qed.

Lemma repr_quote_cases (bs : bytes) :
  repr_quote bs = squote \/ repr_quote bs = dquote.
Proof.
  unfold repr_quote.
  destruct (existsb (Byte.eqb x27) bs && negb (existsb (Byte.eqb x22) bs)); auto.
Qed.

Lemma repr_byte_characters (quote : ascii) (b : byte) :
  quote = squote \/ quote = dquote ->
  forallb literal_character (list_ascii_of_string (repr_byte quote b)) = true.
Proof.
  intros [->| ->]; destruct b; reflexivity.
Qed.

Lemma list_ascii_of_string_app (x y : string) :
  list_ascii_of_string (x ++ y) = list_ascii_of_string x ++ list_ascii_of_string y.
Proof. induction x as [|c x IH]; cbn; [reflexivity|now rewrite IH]. Qed.

Lemma repr_body_characters (quote : ascii) (bs : bytes) :
  quote = squote \/ quote = dquote ->
  forallb literal_character (list_ascii_of_string (repr_body quote bs)) = true.
Proof.
  intros Hq. induction bs as [|b bs IH]; [reflexivity|].
  cbn [repr_body]. rewrite list_ascii_of_string_app, forallb_app.
  now rewrite (repr_byte_characters b Hq), IH.
Qed.

(** The printed form of a byte never begins with the quote of the literal:
    a quote inside the body comes after a backslash. *)
Lemma repr_byte_first (quote : ascii) (b : byte) :
  quote = squote \/ quote = dquote ->
  exists c tail, repr_byte quote b = String c tail /\ Ascii.eqb c quote = false.
Proof.
  intros [->| ->]; destruct b; eexists; eexists; split; reflexivity.
Qed.

(** The empty bytes object is printed as two quotes: a third quote right
    after them opens a triple-quoted literal. *)
Lemma empty_repr_before_a_quote :
  bytes_repr [] = "b''"%string /\
  read_bytes_literal (bytes_repr [] ++ "'x'''") = Some ([x78], EmptyString) /\
  read_bytes_literal (bytes_repr [] ++ "'") = None.
Proof. repeat split. Qed.

(** X10.  What [repr] prints for a bytes object is a bytes literal of that
    object: the text of [{salt!r}] or [{ciphertext!r}] is read back by the
    lexer as one literal whose value is the same bytes, whatever text
    follows it, except that the two quotes printed for the empty bytes
    object must not be followed by a third single quote.  The lines the
    test-case script prints for copying end after the literal and carry the
    salt and the ciphertext without loss. *)
Theorem printed_bytes_read_back :
  forall (bs : bytes) (after : string),
    (bs = [] -> begins_with squote after = false) ->
    read_bytes_literal (bytes_repr bs ++ after) = Some (bs, after).
Proof.
  intros bs after Hafter. unfold bytes_repr, read_bytes_literal.
  cbn [append]. rewrite string_app_assoc. cbn [append].
  pose proof (repr_quote_cases bs) as Hq.
  assert (Hprefix : (Ascii.eqb "b" "b"
                     && (Ascii.eqb (repr_quote bs) squote
                         || Ascii.eqb (repr_quote bs) dquote))%bool = true)
    by (destruct Hq as [-> | ->]; reflexivity).
  rewrite Hprefix.
  assert (Hscan :
            match (repr_body (repr_quote bs) bs ++ String (repr_quote bs) after)%string
            with
            | String c2 (String c3 rest') =>
              if (Ascii.eqb c2 (repr_quote bs) && Ascii.eqb c3 (repr_quote bs))%bool
              then triple_quoted_body (repr_quote bs) rest'
              else literal_body (repr_quote bs)
                     (repr_body (repr_quote bs) bs ++ String (repr_quote bs) after)
            | _ => literal_body (repr_quote bs)
                     (repr_body (repr_quote bs) bs ++ String (repr_quote bs) after)
            end = Some (repr_body (repr_quote bs) bs, after)).
  { destruct bs as [|b bs].
    - specialize (Hafter eq_refl). cbn [repr_body append].
      change (repr_quote []) with squote.
      destruct after as [|c after]; [reflexivity|].
      cbn [begins_with] in Hafter. cbn [andb].
      rewrite Ascii.eqb_refl, Hafter. cbn [andb literal_body].
      now rewrite Ascii.eqb_refl.
    - rewrite (literal_body_repr (b :: bs) after Hq).
      cbn [repr_body].
      destruct (repr_byte_first b Hq) as (c & tail & -> & Hc).
      cbn [append].
      destruct ((tail ++ repr_body (repr_quote (b :: bs)) bs)
                ++ String (repr_quote (b :: bs)) after)%string;
        [reflexivity|].
      now rewrite Hc. }
  rewrite Hscan, (repr_body_characters bs Hq), (bytes_literal_repr bs Hq).
  reflexivity.
Qed.

Lemma printed_bytes_read_back_witness :
  read_bytes_literal (bytes_repr [] ++ String (ascii_of_N 10) "next line")
  = Some ([], String (ascii_of_N 10) "next line") /\
  read_bytes_literal (bytes_repr [xd2; x27; x00; x5c] ++ "''' # the salt")
  = Some ([xd2; x27; x00; x5c], "''' # the salt"%string).
Proof.
  split.
  - exact (@printed_bytes_read_back [] (String (ascii_of_N 10) "next line")
             (fun _ => eq_refl)).
  - apply (@printed_bytes_read_back [xd2; x27; x00; x5c] "''' # the salt").
    intros H. discriminate H.
Defined.

(** ** The test-case script *)

Lemma test_case_literals_decode :
  decode TestCase.password_da_usare = ret (lit "giovanni0@") /\
  decode TestCase.testo_in_chiaro
  = ret (lit "Se leggi questo messaggio, la logica di crittografia funziona!").
Proof. split; reflexivity. Qed.

Section Create_test_case_facts.

Variable fernet : Type.
Variable PBKDF2HMAC_derive : Z -> bytes -> Z -> bytes -> outcome bytes.
Variable urlsafe_b64encode : bytes -> bytes.
Variable Fernet : bytes -> outcome fernet.
Variable Fernet_decrypt : fernet -> bytes -> outcome bytes.
Variable Fernet_encrypt : fernet -> bytes -> outcome bytes.
Variable random_salt : bytes.
Variable exception_message : exn -> str.

Local Abbreviation script :=
  (create_test_case PBKDF2HMAC_derive urlsafe_b64encode Fernet Fernet_decrypt
     Fernet_encrypt random_salt exception_message).

(** The script in all its runs. *)
Lemma create_test_case_run (out : stdout) :
  script out =
  match PBKDF2HMAC_derive 32 random_salt 100000 TestCase.password_da_usare with
  | Raise e => (out, Raise e)
  | Return key_material =>
    match Fernet (urlsafe_b64encode key_material) with
    | Raise e => (out, Raise e)
    | Return f =>
      match Fernet_encrypt f TestCase.testo_in_chiaro with
      | Raise e => (out, Raise e)
      | Return ciphertext =>
        (out ++ test_case_report random_salt ciphertext
             ++ verification_report Fernet_decrypt exception_message f ciphertext
             ++ [Print (str_mul (lit "=") 60)],
         Return (random_salt, ciphertext))
      end
    end
  end.
Proof.
  unfold create_test_case.
  destruct test_case_literals_decode as [-> ->].
  unfold try_except_as, bind, lift, print, decode, ret, raise,
    test_case_report, verification_report.
  destruct (PBKDF2HMAC_derive 32 random_salt 100000 TestCase.password_da_usare)
    as [key_material|e]; [|reflexivity].
  destruct (Fernet (urlsafe_b64encode key_material)) as [f|e]; [|reflexivity].
  destruct (Fernet_encrypt f TestCase.testo_in_chiaro) as [ciphertext|e];
    [|reflexivity].
  destruct (Fernet_decrypt f ciphertext) as [decrypted_text|e].
  - destruct (utf8_decode decrypted_text) as [verified|];
      cbv beta iota zeta; repeat rewrite <- app_assoc; reflexivity.
  - cbv beta iota zeta; repeat rewrite <- app_assoc; reflexivity.
Qed.


(** X12.  A Target made by the test-case script is opened by the
    cracker's verifier with the reference password: if decryption undoes
    encryption in the library, then for the salt and the ciphertext the
    script ends with, [decrypt] called on [b"giovanni0@"] prints the banner,
    the password and the original plaintext and returns [True]. *)
Theorem test_case_target_is_opened :
  (forall f data token,
      Fernet_encrypt f data = Return token -> Fernet_decrypt f token = Return data) ->
  forall (out out' : stdout) (salt ciphertext : bytes),
    script out = (out', Return (salt, ciphertext)) ->
    forall console : stdout,
      decrypt PBKDF2HMAC_derive urlsafe_b64encode Fernet Fernet_decrypt
              salt ciphertext TestCase.password_da_usare console
      = (console ++ banner
                 ++ [Print (lit " -> Password: " ++ lit "giovanni0@");
                     Print (lit " -> Plaintext: "
                            ++ lit "Se leggi questo messaggio, la logica di crittografia funziona!");
                     Print (str_mul (lit "=") 50)],
         Return true).
Proof.
  intros Hround out out' salt ciphertext H console.
  rewrite create_test_case_run in H.
  destruct (PBKDF2HMAC_derive 32 random_salt 100000 TestCase.password_da_usare)
    as [key_material|e] eqn:Hd; [|discriminate].
  destruct (Fernet (urlsafe_b64encode key_material)) as [f|e] eqn:Hf; [|discriminate].
  destruct (Fernet_encrypt f TestCase.testo_in_chiaro) as [token|e] eqn:He;
    [|discriminate].
  inversion H; subst.
  rewrite decrypt_run. unfold verdict, console_output, authenticated_decryption.
  rewrite Hd, Hf, (Hround _ _ _ He).
  assert (Hp : utf8_decode TestCase.password_da_usare = Some (lit "giovanni0@"))
    by reflexivity.
  assert (Ht : utf8_decode TestCase.testo_in_chiaro
               = Some (lit "Se leggi questo messaggio, la logica di crittografia funziona!"))
    by reflexivity.
  now rewrite Hp, Ht.
Qed.

End Create_test_case_facts.

Lemma stub_strip_key (key data : bytes) :
  StubCrypto.strip_key key (key ++ data) = Some data.
Proof.
  induction key as [|k key IH]; [reflexivity|].
  cbn [app StubCrypto.strip_key].
  replace (Byte.eqb k k) with true; [exact IH|].
  symmetry. now apply Byte.byte_dec_lb.
Qed.

Lemma stub_decrypt_undoes_encrypt (f : StubCrypto.fernet) (data token : bytes) :
  stub_encrypt f data = Return token ->
  StubCrypto.Fernet_decrypt f token = Return data.
Proof.
  unfold stub_encrypt, StubCrypto.Fernet_encrypt, StubCrypto.Fernet_decrypt.
  intros H. inversion H; subst. now rewrite stub_strip_key.
Qed.


Lemma test_case_target_is_opened_witness :
  (forall f data token,
      stub_encrypt f data = Return token ->
      StubCrypto.Fernet_decrypt f token = Return data) /\
  create_test_case StubCrypto.PBKDF2HMAC_derive StubCrypto.urlsafe_b64encode
                   StubCrypto.Fernet StubCrypto.Fernet_decrypt stub_encrypt
                   stub_salt stub_message []
  = (fst (create_test_case StubCrypto.PBKDF2HMAC_derive StubCrypto.urlsafe_b64encode
                           StubCrypto.Fernet StubCrypto.Fernet_decrypt stub_encrypt
                           stub_salt stub_message []),
     Return (stub_salt,
             (stub_salt ++ TestCase.password_da_usare) ++ TestCase.testo_in_chiaro)) /\
  StubCrypto.decrypt
    stub_salt ((stub_salt ++ TestCase.password_da_usare) ++ TestCase.testo_in_chiaro)
    TestCase.password_da_usare []
  = ([] ++ banner
        ++ [Print (lit " -> Password: " ++ lit "giovanni0@");
            Print (lit " -> Plaintext: "
                   ++ lit "Se leggi questo messaggio, la logica di crittografia funziona!");
            Print (str_mul (lit "=") 50)],
     Return true).
Proof.
  assert (Hrun :
     create_test_case StubCrypto.PBKDF2HMAC_derive StubCrypto.urlsafe_b64encode
                      StubCrypto.Fernet StubCrypto.Fernet_decrypt stub_encrypt
                      stub_salt stub_message []
     = (fst (create_test_case StubCrypto.PBKDF2HMAC_derive StubCrypto.urlsafe_b64encode
                              StubCrypto.Fernet StubCrypto.Fernet_decrypt stub_encrypt
                              stub_salt stub_message []),
        Return (stub_salt,
                (stub_salt ++ TestCase.password_da_usare)
                  ++ TestCase.testo_in_chiaro)))
    by (vm_compute; reflexivity).
  split; [exact stub_decrypt_undoes_encrypt|]. split; [exact Hrun|].
  exact (test_case_target_is_opened
           StubCrypto.PBKDF2HMAC_derive StubCrypto.urlsafe_b64encode
           StubCrypto.Fernet StubCrypto.Fernet_decrypt stub_encrypt
           stub_salt stub_message stub_decrypt_undoes_encrypt _ Hrun []).
Defined.

(** ** The benchmark loop *)

Lemma dummy_passwords_encode (i : nat) :
  In i (range number_of_passwords_to_test) ->
  exists bs, utf8_encode (dummy_password i) = Some bs.
Proof.
  intros Hi.
  assert (Hall : forallb (fun i => match utf8_encode (dummy_password i) with
                                   | Some _ => true
                                   | None => false
                                   end)
                         (range number_of_passwords_to_test) = true)
    by (vm_compute; reflexivity).
  rewrite forallb_forall in Hall. specialize (Hall i Hi).
  destruct (utf8_encode (dummy_password i)) as [bs|]; [now exists bs|discriminate].
Qed.

Section Benchmark_facts.

Variable fernet : Type.
Variable PBKDF2HMAC_derive : Z -> bytes -> Z -> bytes -> outcome bytes.
Variable urlsafe_b64encode : bytes -> bytes.
Variable Fernet : bytes -> outcome fernet.
Variable Fernet_decrypt : fernet -> bytes -> outcome bytes.
Variables salt ciphertext : bytes.

Local Abbreviation check' :=
  (check_password_silent PBKDF2HMAC_derive urlsafe_b64encode Fernet
     Fernet_decrypt salt ciphertext).
Local Abbreviation decryption' :=
  (authenticated_decryption PBKDF2HMAC_derive urlsafe_b64encode Fernet
     Fernet_decrypt salt ciphertext).

Lemma benchmark_loop_run (indices : list nat) :
  (forall i, In i indices ->
             exists bs, utf8_encode (dummy_password i) = Some bs /\
                        returns_or_invalid_token (decryption' bs) = true) ->
  forall out,
    benchmark_loop check' indices out = (out ++ benchmark_progress indices, Return tt).
Proof.
  induction indices as [|i indices IH]; intros Hok out.
  - cbn. now rewrite app_nil_r.
  - destruct (Hok i (or_introl eq_refl)) as (bs & He & Hr).
    cbn [benchmark_loop benchmark_progress flat_map].
    unfold bind at 1. unfold encode. rewrite He. unfold ret at 1.
    unfold bind at 1. rewrite check_password_silent_run.
    assert (Hcheck : match decryption' bs with
                     | Return _ => Return tt
                     | Raise e => if is_InvalidToken e then Return tt else Raise e
                     end = Return tt).
    { unfold returns_or_invalid_token in Hr.
      destruct (decryption' bs) as [|e]; [reflexivity|now rewrite Hr]. }
    rewrite Hcheck. unfold bind at 1.
    assert (Hrest : forall out', benchmark_loop check' indices out'
                                 = (out' ++ benchmark_progress indices, Return tt)).
    { apply IH. intros i' Hi'. apply Hok. now right. }
    fold (benchmark_progress indices).
    destruct ((i + 1) mod 100 =? 0).
    + unfold print. rewrite Hrest, <- app_assoc. reflexivity.
    + unfold ret. rewrite Hrest. reflexivity.
Qed.

(** X13.  The benchmark is blind to what the checks find.  If, for each
    of the 1000 dummy passwords, the key derivation and decryption either
    return or raise [InvalidToken], the script prints its two opening lines
    and the ten progress lines "100/1000" to "1000/1000", nothing else, and
    the loop ends normally, whether or not a dummy password decrypts the
    Target. *)
Theorem benchmark_prints_only_progress :
  (forall i bs,
      i < number_of_passwords_to_test ->
      utf8_encode (dummy_password i) = Some bs ->
      returns_or_invalid_token (decryption' bs) = true) ->
  forall out : stdout,
    benchmark check' out =
    (out ++ [Print (lit "Starting benchmark: 1000 passwords will be tested...");
             Print (lit "This process will measure your hardware speed against this specific cryptographic target.")]
         ++ map (fun m => Print (lit "  Progress: " ++ py_str (100 * m)
                                 ++ lit "/1000 passwords tested..."))
                (seq 1 10),
     Return tt).
Proof.
  intros Hok out. unfold benchmark, bind, print.
  rewrite benchmark_loop_run.
  - assert (Hlines : benchmark_progress (range number_of_passwords_to_test)
                     = map (fun m => Print (lit "  Progress: " ++ py_str (100 * m)
                                            ++ lit "/1000 passwords tested..."))
                           (seq 1 10))
      by (vm_compute; reflexivity).
    rewrite Hlines, <- !app_assoc. reflexivity.
  - intros i Hi. destruct (@dummy_passwords_encode i Hi) as [bs He].
    exists bs. split; [assumption|].
    apply (Hok i bs); [|assumption]. now apply in_range_lt in Hi.
Qed.

End Benchmark_facts.

Lemma benchmark_prints_only_progress_witness :
  (forall i bs,
      i < number_of_passwords_to_test ->
      utf8_encode (dummy_password i) = Some bs ->
      returns_or_invalid_token
        (authenticated_decryption
           StubCrypto.PBKDF2HMAC_derive StubCrypto.urlsafe_b64encode
           StubCrypto.Fernet StubCrypto.Fernet_decrypt
           StubCrypto.closed_salt StubCrypto.closed_target bs) = true) /\
  benchmark (check_password_silent
               StubCrypto.PBKDF2HMAC_derive StubCrypto.urlsafe_b64encode
               StubCrypto.Fernet StubCrypto.Fernet_decrypt
               StubCrypto.closed_salt StubCrypto.closed_target) [] =
  ([] ++ [Print (lit "Starting benchmark: 1000 passwords will be tested...");
          Print (lit "This process will measure your hardware speed against this specific cryptographic target.")]
      ++ map (fun m => Print (lit "  Progress: " ++ py_str (100 * m)
                              ++ lit "/1000 passwords tested..."))
             (seq 1 10),
   Return tt).
Proof.
  assert (Hok : forall i bs,
             i < number_of_passwords_to_test ->
             utf8_encode (dummy_password i) = Some bs ->
             returns_or_invalid_token
               (authenticated_decryption
                  StubCrypto.PBKDF2HMAC_derive StubCrypto.urlsafe_b64encode
                  StubCrypto.Fernet StubCrypto.Fernet_decrypt
                  StubCrypto.closed_salt StubCrypto.closed_target bs) = true)
    by (intros i bs _ _; reflexivity).
  split; [exact Hok|].
  exact (benchmark_prints_only_progress
           StubCrypto.PBKDF2HMAC_derive StubCrypto.urlsafe_b64encode
           StubCrypto.Fernet StubCrypto.Fernet_decrypt
           StubCrypto.closed_salt StubCrypto.closed_target Hok []).
Defined.
